(** * srctools: the Cython tokenizer ([src/srctools/_tokenizer.pyx])

    A shallow embedding of the [Tokenizer] class and the properties of its
    character source, its scanning loops and [expect].

    Conventions of the embedding.
    - A Python [str] is a [string]; a character ([Py_UCS4]) is an [ascii],
      and the sentinel [-1] of [_next_char] is [None].
    - The C [int] field [line_num] is public and can hold any value of its
      type: it is an integer of [Z] and [self.line_num += 1] wraps around
      at 32 bits ([wrap_int]).  The cursor [char_index] starts at -1 and
      counts the characters read: it is an integer of [Z] taken inside the
      range of [int].
    - The sentinel is [(Py_UCS4)-1], an unsigned value.  As the class is
      compiled (with a [long] of 64 bits), the tests for it that are part of
      a chain of comparisons of one character find it; the one test that
      stands alone, at the head of the loop of a quoted string, does not,
      and there the sentinel goes on to [value_chars.append], which raises
      a [ValueError].
    - [chunk_iter] is the list of the objects the iterator has still to
      yield; [next(it, None)] pops its head.
    - A method is a function from the object to an outcome and the mutated
      object.  The [while True] loops take a fuel argument; running out of
      fuel is [None]; [next_token_frame] shows that fuel above the length of
      the remaining text gives a result, and [next_token_fuel] that more
      fuel gives the same one. *)

From Stdlib Require Import ZArith List String Ascii Bool Lia.
Import ListNotations.

Local Open Scope Z_scope.

(** ** Characters and strings *)

Definition ch_nl     : ascii := "010"%char.
Definition ch_tab    : ascii := "009"%char.
Definition ch_dquote : ascii := "034"%char.
Definition ch_squote : ascii := "039"%char.
Definition ch_bslash : ascii := "092"%char.

(** The one-character string [str(c)]. *)
Definition str1 (c : ascii) : string := String c EmptyString.

(** [c in s] for a character [c]. *)
Fixpoint char_in (c : ascii) (s : string) : bool :=
  match s with
  | EmptyString => false
  | String d s' => (c =? d)%char || char_in c s'
  end.

(** [len(s)] as a C integer. *)
Definition len (s : string) : Z := Z.of_nat (String.length s).

(** [s[i]] with Python's negative indices; [None] is an [IndexError]. *)
Definition py_getitem (s : string) (i : Z) : option ascii :=
  if i <? 0 then
    if 0 <=? len s + i then String.get (Z.to_nat (len s + i)) s else None
  else String.get (Z.to_nat i) s.

(** A C [int] of 32 bits: the value an integer wraps around to. *)
Definition wrap_int (z : Z) : Z :=
  (z + 2147483648) mod 4294967296 - 2147483648.

(** The values of a C [int]. *)
Definition int_range (z : Z) : Prop := -2147483648 <= z <= 2147483647.

(** [''.join(value_chars)]. *)
Definition join (value_chars : list string) : string :=
  String.concat EmptyString value_chars.

(** [BARE_DISALLOWED]: the characters not allowed for bare names. *)
Definition BARE_DISALLOWED : string :=
  String ch_dquote (String ch_squote
    ("{}<>();:[]" ++ String ch_nl (String ch_tab " "))).

(** ** Tokens *)

Inductive Token : Type :=
| EOF | STRING | NEWLINE | PAREN_ARGS | BRACE_OPEN | BRACE_CLOSE
| PROP_FLAG | BRACK_OPEN | BRACK_CLOSE | COLON | EQUALS | PLUS.

Definition Token_eqb (a b : Token) : bool :=
  match a, b with
  | EOF, EOF | STRING, STRING | NEWLINE, NEWLINE | PAREN_ARGS, PAREN_ARGS
  | BRACE_OPEN, BRACE_OPEN | BRACE_CLOSE, BRACE_CLOSE | PROP_FLAG, PROP_FLAG
  | BRACK_OPEN, BRACK_OPEN | BRACK_CLOSE, BRACK_CLOSE | COLON, COLON
  | EQUALS, EQUALS | PLUS, PLUS => true
  | _, _ => false
  end.

(** [token.name]. *)
Definition Token_name (t : Token) : string :=
  match t with
  | EOF => "EOF" | STRING => "STRING" | NEWLINE => "NEWLINE"
  | PAREN_ARGS => "PAREN_ARGS" | BRACE_OPEN => "BRACE_OPEN"
  | BRACE_CLOSE => "BRACE_CLOSE" | PROP_FLAG => "PROP_FLAG"
  | BRACK_OPEN => "BRACK_OPEN" | BRACK_CLOSE => "BRACK_CLOSE"
  | COLON => "COLON" | EQUALS => "EQUALS" | PLUS => "PLUS"
  end.

(** [str(token)], which is what an f-string prints for an [Enum] member. *)
Definition Token_str (t : Token) : string := "Token." ++ Token_name t.

(** The pair [(kind, value)] a call returns; the value of EOF is [None]. *)
Definition TokenPair : Type := Token * option string.

Definition _tok_EOF         : TokenPair := (EOF, None).
Definition _tok_BRACE_OPEN  : TokenPair := (BRACE_OPEN, Some "{"%string).
Definition _tok_BRACE_CLOSE : TokenPair := (BRACE_CLOSE, Some "}"%string).
Definition _tok_BRACK_OPEN  : TokenPair := (BRACK_OPEN, Some "["%string).
Definition _tok_BRACK_CLOSE : TokenPair := (BRACK_CLOSE, Some "]"%string).
Definition _tok_COLON       : TokenPair := (COLON, Some ":"%string).
Definition _tok_EQUALS      : TokenPair := (EQUALS, Some "="%string).
Definition _tok_PLUS        : TokenPair := (PLUS, Some "+"%string).

(** ** Exceptions *)

(** An exception class that can be given as [error]; the flag is
    [issubclass(cls, TokenSyntaxError)]. *)
Record PyClass : Type := {
  cls_name : string;
  cls_is_syntax_error : bool
}.

(** The default error class, imported from [srctools.tokenizer]. *)
Definition TokenSyntaxError : PyClass :=
  {| cls_name := "TokenSyntaxError"; cls_is_syntax_error := true |}.

Inductive PyExc : Type :=
| ErrorInstance (cls : PyClass) (message file : string) (line : Z)
    (* error_type(message, filename, line_num) *)
| ValueError (message : string)
| TypeError (message : string)
| IndexError.

Inductive Outcome (A : Type) : Type :=
| Ret (a : A)
| Raise (e : PyExc).
Arguments Ret {A} a.
Arguments Raise {A} e.

(** ** The tokenizer object *)

(** What the chunk iterator can yield: a string, [None], or another object. *)
Inductive Chunk : Type :=
| PyStr (s : string)
| PyNone
| PyOther.

Record Tokenizer : Type := {
  cur_chunk : string;
  chunk_iter : list Chunk;
  char_index : Z;
  error_type : PyClass;
  filename : string;
  line_num : Z;
  string_bracket : bool
}.

Definition set_cur_chunk (self : Tokenizer) (v : string) : Tokenizer :=
  {| cur_chunk := v; chunk_iter := chunk_iter self;
     char_index := char_index self; error_type := error_type self;
     filename := filename self; line_num := line_num self;
     string_bracket := string_bracket self |}.

Definition set_chunk_iter (self : Tokenizer) (v : list Chunk) : Tokenizer :=
  {| cur_chunk := cur_chunk self; chunk_iter := v;
     char_index := char_index self; error_type := error_type self;
     filename := filename self; line_num := line_num self;
     string_bracket := string_bracket self |}.

Definition set_char_index (self : Tokenizer) (v : Z) : Tokenizer :=
  {| cur_chunk := cur_chunk self; chunk_iter := chunk_iter self;
     char_index := v; error_type := error_type self;
     filename := filename self; line_num := line_num self;
     string_bracket := string_bracket self |}.

Definition set_line_num (self : Tokenizer) (v : Z) : Tokenizer :=
  {| cur_chunk := cur_chunk self; chunk_iter := chunk_iter self;
     char_index := char_index self; error_type := error_type self;
     filename := filename self; line_num := v;
     string_bracket := string_bracket self |}.

(** The argument [data] of the constructor: a string, or an iterable of
    chunks that may have a [name] attribute (a file object). *)
Inductive Data : Type :=
| DataStr (s : string)
| DataIter (chunks : list Chunk) (name : option string).

(** [Tokenizer.__init__]; [filename] is falsy when [None] or empty. *)
Definition __init__ (data : Data) (fname : option string)
    (error : option PyClass) (bracket : bool) : Outcome Tokenizer :=
  let '(chunk, it) :=
    match data with
    | DataStr s => (s, [])
    | DataIter chunks _ => (EmptyString, chunks)
    end in
  let file :=
    match fname with
    | Some (String c f) => String c f
    | _ => match data with
           | DataIter _ (Some n) => n
           | _ => EmptyString
           end
    end in
  let mk cls :=
    Ret {| cur_chunk := chunk; chunk_iter := it; char_index := -1;
           error_type := cls; filename := file; line_num := 1;
           string_bracket := bracket |} in
  match error with
  | None => mk TokenSyntaxError
  | Some cls =>
      if cls_is_syntax_error cls then mk cls
      else Raise (TypeError
             ("Invalid error instance " ++ String ch_dquote "type"
              ++ String ch_dquote "!"))
  end.

(** [Tokenizer._error]: the configured class called with the message, the
    file name and the line number. *)
Definition _error (self : Tokenizer) (message : string) : PyExc :=
  ErrorInstance (error_type self) message (filename self) (line_num self).

(** [Tokenizer.error] called with a [Token]. *)
Definition error (self : Tokenizer) (message : Token) : PyExc :=
  _error self ("Unexpected token " ++ Token_name message ++ "!").

(** ** The character source *)

(** The [for chunk in self.chunk_iter] loop of [_next_char], which skips
    empty chunks.  The loop variable is typed [str]: [len] of anything else
    is a [TypeError]. *)
Fixpoint skip_empty_chunks (self : Tokenizer) (it : list Chunk)
    : Outcome (option ascii) * Tokenizer :=
  match it with
  | [] => (Ret None, set_chunk_iter self [])
  | PyStr chunk :: it' =>
      match chunk with
      | String c _ => (Ret (Some c), set_cur_chunk (set_chunk_iter self it') chunk)
      | EmptyString => skip_empty_chunks self it'
      end
  | _ :: it' => (Raise (TypeError "chunk is not a str"), set_chunk_iter self it')
  end.

(** [Tokenizer._next_char].  The local [chunk] is typed [str]: assigning it
    an object that is neither a string nor [None] is a [TypeError], so the
    [isinstance] test that follows never fails. *)
Definition _next_char (self : Tokenizer) : Outcome (option ascii) * Tokenizer :=
  let self := set_char_index self (char_index self + 1) in
  if char_index self <? len (cur_chunk self) then
    match py_getitem (cur_chunk self) (char_index self) with
    | Some c => (Ret (Some c), self)
    | None => (Raise IndexError, self)
    end
  else
    match chunk_iter self with
    | [] => (Ret None, self)
    | PyNone :: it => (Ret None, set_chunk_iter self it)
    | PyOther :: it =>
        (Raise (TypeError "Expected str"), set_chunk_iter self it)
    | PyStr chunk :: it =>
        let self := set_char_index (set_cur_chunk (set_chunk_iter self it) chunk) 0 in
        match chunk with
        | String c _ => (Ret (Some c), self)
        | EmptyString => skip_empty_chunks self it
        end
    end.

(** [self.char_index -= 1]: push the last character back. *)
Definition unget (self : Tokenizer) : Tokenizer :=
  set_char_index self (char_index self - 1).

(** ** The monad of the scanning loops *)

Definition M (A : Type) : Type := Tokenizer -> option (Outcome A * Tokenizer).

Definition ret {A : Type} (a : A) : M A := fun self => Some (Ret a, self).

Definition bind {A B : Type} (m : M A) (k : A -> M B) : M B :=
  fun self =>
    match m self with
    | None => None
    | Some (Raise e, self') => Some (Raise e, self')
    | Some (Ret a, self') => k a self'
    end.

Notation "x <- m ;; k" := (bind m (fun x => k))
  (at level 61, m at next level, right associativity).
Notation "m ;;; k" := (bind m (fun _ => k))
  (at level 61, right associativity).

Definition out_of_fuel {A : Type} : M A := fun _ => None.

(** [raise self._error(message)]. *)
Definition raise_error {A : Type} (message : string) : M A :=
  fun self => Some (Raise (_error self message), self).

(** [raise self.error(token)]. *)
Definition raise_token {A : Type} (t : Token) : M A :=
  fun self => Some (Raise (error self t), self).

Definition next_char : M (option ascii) := fun self => Some (_next_char self).

(** An exception raised by Python itself. *)
Definition raise_exc {A : Type} (e : PyExc) : M A :=
  fun self => Some (Raise e, self).

(** [self.line_num += 1] on a C [int]. *)
Definition incr_line : M unit :=
  fun self => Some (Ret tt, set_line_num self (wrap_int (line_num self + 1))).

Definition unget_char : M unit := fun self => Some (Ret tt, unget self).

Definition get_string_bracket : M bool :=
  fun self => Some (Ret (string_bracket self), self).

(** ** The scanner *)

(** The comment loop: skip to the end of the line. *)
Fixpoint skip_comment (fuel : nat) : M unit :=
  match fuel with
  | O => out_of_fuel
  | S f =>
      c <- next_char ;;
      match c with
      | None => ret tt
      | Some c => if (c =? ch_nl)%char then ret tt else skip_comment f
      end
  end.

(** [value_chars.append(next_char)] when [next_char] is the sentinel, which
    is no code point: the conversion to [str] fails. *)
Definition sentinel_error : PyExc :=
  ValueError "chr() arg not in range(0x110000)".

(** The loop of a quoted string.  Its first test, [if next_char == -1],
    stands alone and is false for the sentinel; the sentinel is none of the
    characters of the chain that follows and reaches the [append] at the end
    of the body. *)
Fixpoint read_string (fuel : nat) (value_chars : list string) : M TokenPair :=
  match fuel with
  | O => out_of_fuel
  | S f =>
      c <- next_char ;;
      match c with
      | None => raise_exc sentinel_error
      | Some c =>
          if (c =? ch_dquote)%char then ret (STRING, Some (join value_chars))
          else if (c =? ch_nl)%char then
            incr_line ;;; read_string f (value_chars ++ [str1 c])
          else if (c =? ch_bslash)%char then
            e <- next_char ;;
            match e with
            | None => raise_error "Unterminated string!"
            | Some e =>
                if (e =? "n")%char then read_string f (value_chars ++ [str1 ch_nl])
                else if (e =? "t")%char then read_string f (value_chars ++ [str1 ch_tab])
                else if (e =? ch_nl)%char then read_string f value_chars
                else if char_in e (String ch_dquote (String ch_bslash "/")) then
                  read_string f (value_chars ++ [str1 e])
                else read_string f (value_chars ++ [String ch_bslash (str1 e)])
            end
          else read_string f (value_chars ++ [str1 c])
      end
  end.

(** The loop of a property flag. *)
Fixpoint read_flag (fuel : nat) (value_chars : list string) : M TokenPair :=
  match fuel with
  | O => out_of_fuel
  | S f =>
      c <- next_char ;;
      match c with
      | None => raise_error "Unterminated property flag!"
      | Some c =>
          if (c =? "]")%char then ret (PROP_FLAG, Some (join value_chars))
          else if (c =? ch_nl)%char then raise_token NEWLINE
          else read_flag f (value_chars ++ [str1 c])
      end
  end.

(** The loop of a parenthesised group. *)
Fixpoint read_parens (fuel : nat) (value_chars : list string) : M TokenPair :=
  match fuel with
  | O => out_of_fuel
  | S f =>
      c <- next_char ;;
      match c with
      | None => raise_error "Unterminated parentheses!"
      | Some c =>
          if (c =? ")")%char then ret (PAREN_ARGS, Some (join value_chars))
          else if (c =? ch_nl)%char then
            incr_line ;;; read_parens f (value_chars ++ [str1 c])
          else read_parens f (value_chars ++ [str1 c])
      end
  end.

(** The loop of a bare name. *)
Fixpoint read_bare (fuel : nat) (value_chars : list string) : M TokenPair :=
  match fuel with
  | O => out_of_fuel
  | S f =>
      c <- next_char ;;
      match c with
      | None => ret (STRING, Some (join value_chars))
      | Some c =>
          if char_in c BARE_DISALLOWED then
            unget_char ;;; ret (STRING, Some (join value_chars))
          else read_bare f (value_chars ++ [str1 c])
      end
  end.

(** [Tokenizer._next_token]. *)
Fixpoint _next_token (fuel : nat) : M TokenPair :=
  match fuel with
  | O => out_of_fuel
  | S f =>
      c <- next_char ;;
      match c with
      | None => ret _tok_EOF
      | Some c =>
          if (c =? "{")%char then ret _tok_BRACE_OPEN
          else if (c =? "}")%char then ret _tok_BRACE_CLOSE
          else if (c =? ":")%char then ret _tok_COLON
          else if (c =? "+")%char then ret _tok_PLUS
          else if (c =? "=")%char then ret _tok_EQUALS
          else if (c =? "]")%char then ret _tok_BRACK_CLOSE
          else if (c =? ch_nl)%char then
            incr_line ;;; ret (NEWLINE, Some (str1 ch_nl))
          else if char_in c (String " " (str1 ch_tab)) then _next_token f
          else if (c =? "/")%char then
            c2 <- next_char ;;
            if match c2 with Some c2 => negb (c2 =? "/")%char | None => true end
            then raise_error "Single slash found!"
            else skip_comment f ;;; unget_char ;;; _next_token f
          else if (c =? ch_dquote)%char then read_string f []
          else if (c =? "[")%char then
            flag <- get_string_bracket ;;
            if negb flag then ret _tok_BRACK_OPEN else read_flag f []
          else if (c =? "(")%char then read_parens f []
          else if negb (char_in c BARE_DISALLOWED) then read_bare f [str1 c]
          else
            raise_error ("Unexpected character " ++ String ch_dquote (str1 c)
                         ++ String ch_dquote "!")
      end
  end.

(** The [while skip_newline and next_token is NEWLINE] loop of [expect]:
    at most [n] turns, each call of [_next_token] with [fuel]. *)
Fixpoint skip_newlines (fuel n : nat) (skip_newline : bool) (tok : TokenPair)
    : M TokenPair :=
  if skip_newline && Token_eqb (fst tok) NEWLINE then
    match n with
    | O => out_of_fuel
    | S n' =>
        tok' <- _next_token fuel ;; skip_newlines fuel n' skip_newline tok'
    end
  else ret tok.

(** [Tokenizer.expect].  The function has no [return]: a call that does not
    raise returns [None]. *)
Definition expect (fuel : nat) (token : Token) (skip_newline : bool)
    : M (option string) :=
  let skip_newline :=
    if Token_eqb token NEWLINE then false else skip_newline in
  tok <- _next_token fuel ;;
  tok <- skip_newlines fuel fuel skip_newline tok ;;
  let '(next_token, value) := tok in
  if negb (Token_eqb next_token token) then
    raise_error ("Expected " ++ Token_str token ++ ", but got "
                 ++ Token_str next_token ++ "!")
  else ret None.

(** ** Running a tokenizer *)

(** [n] successive calls of [_next_token], each with [fuel]: the outcomes in
    order and the object after the last call. *)
Fixpoint calls (fuel n : nat) (self : Tokenizer)
    : option (list (Outcome TokenPair) * Tokenizer) :=
  match n with
  | O => Some ([], self)
  | S n' =>
      match _next_token fuel self with
      | None => None
      | Some (o, self') =>
          match calls fuel n' self' with
          | None => None
          | Some (os, self'') => Some (o :: os, self'')
          end
      end
  end.

(** Call [_next_token] until it returns EOF or raises, at most [n] times:
    the tokens before the end, and how it ended. *)
Fixpoint tokenize (fuel n : nat) (self : Tokenizer)
    : option (list (Outcome TokenPair) * Tokenizer) :=
  match n with
  | O => Some ([], self)
  | S n' =>
      match _next_token fuel self with
      | None => None
      | Some (Ret (EOF, v), self') => Some ([Ret (EOF, v)], self')
      | Some (Raise e, self') => Some ([Raise e], self')
      | Some (o, self') =>
          match tokenize fuel n' self' with
          | None => None
          | Some (os, self'') => Some (o :: os, self'')
          end
      end
  end.

(** ** The text still to be read *)

Fixpoint drop (n : nat) (s : string) : string :=
  match n, s with
  | O, _ => s
  | S n', String _ s' => drop n' s'
  | S _, EmptyString => EmptyString
  end.

Definition chunk_text (c : Chunk) : string :=
  match c with
  | PyStr s => s
  | _ => EmptyString
  end.

Definition is_str (c : Chunk) : bool :=
  match c with
  | PyStr _ => true
  | _ => false
  end.

(** The characters the source will still deliver: the rest of the current
    chunk, then the pending chunks. *)
Definition remaining (self : Tokenizer) : string :=
  (drop (Z.to_nat (char_index self + 1)) (cur_chunk self)
   ++ join (map chunk_text (chunk_iter self)))%string.

(** The invariant of the character source on a stream of strings. *)
Definition wf (self : Tokenizer) : Prop :=
  -1 <= char_index self /\ forallb is_str (chunk_iter self) = true.

(** The configuration a call never changes. *)
Definition same_config (a b : Tokenizer) : Prop :=
  filename a = filename b /\ error_type a = error_type b
  /\ string_bracket a = string_bracket b.

(** Number of newline characters of a text. *)
Fixpoint count_nl (s : string) : nat :=
  match s with
  | EmptyString => O
  | String c s' => ((if (c =? ch_nl)%char then 1 else 0) + count_nl s')%nat
  end.

(** The line counter after [n] more executions of [self.line_num += 1]. *)
Fixpoint add_lines (line : Z) (n : nat) : Z :=
  match n with
  | O => line
  | S n' => add_lines (wrap_int (line + 1)) n'
  end.

(** The line continuations of the text that follows the opening quote of a
    quoted string: the newlines that stand right after the backslash of an
    escape sequence, up to the closing quote. *)
Fixpoint continuations (s : string) : nat :=
  match s with
  | EmptyString => O
  | String c s' =>
      if (c =? ch_dquote)%char then O
      else if (c =? ch_bslash)%char then
        match s' with
        | String e s'' =>
            ((if (e =? ch_nl)%char then 1 else 0) + continuations s'')%nat
        | EmptyString => O
        end
      else continuations s'
  end.

(** The line continuations of the text one call reads: those of the quoted
    string it starts with after spaces and tabs, if it does. *)
Fixpoint uncounted (p : string) : nat :=
  match p with
  | EmptyString => O
  | String c p' =>
      if (c =? ch_dquote)%char then continuations p'
      else if char_in c (String " " (str1 ch_tab)) then uncounted p'
      else O
  end.

(** No backslash of the text is directly followed by a newline. *)
Fixpoint no_bslash_nl (s : string) : bool :=
  match s with
  | EmptyString => true
  | String c s' =>
      match s' with
      | String d _ => negb ((c =? ch_bslash)%char && (d =? ch_nl)%char)
      | EmptyString => true
      end && no_bslash_nl s'
  end.

(** What a successful read leaves: the object is well formed, also after a
    push-back, and the text to read has lost its first character. *)
Definition after_read (a a' : Tokenizer) (o : option ascii) : Prop :=
  wf a' /\ wf (unget a') /\ line_num a' = line_num a /\ same_config a a'
  /\ match o with
     | Some c =>
         remaining a = String c (remaining a')
         /\ remaining (unget a') = remaining a
     | None =>
         remaining a = EmptyString /\ remaining a' = EmptyString
         /\ remaining (unget a') = EmptyString
     end.

(** A computation went from [a] to [a'] reading the text [p]: the object is
    still well formed, its configuration is the same, and the line counter
    was incremented at most once for each newline of [p]. *)
Definition consumed (a : Tokenizer) (p : string) (a' : Tokenizer) : Prop :=
  wf a' /\ same_config a a'
  /\ remaining a = (p ++ remaining a')%string
  /\ exists k, (k <= count_nl p)%nat /\ line_num a' = add_lines (line_num a) k.

(** The line counter was incremented exactly [n] times. *)
Definition exact_lines (a : Tokenizer) (n : nat) (a' : Tokenizer) : Prop :=
  line_num a' = add_lines (line_num a) n.

Definition returns {A : Type} (o : Outcome A) : Prop :=
  match o with
  | Ret _ => True
  | Raise _ => False
  end.

(** Two tokenizers that differ only in how the text to read is cut into
    chunks. *)
Definition sim (a b : Tokenizer) : Prop :=
  wf a /\ wf b /\ remaining a = remaining b /\ line_num a = line_num b
  /\ filename a = filename b /\ error_type a = error_type b
  /\ string_bracket a = string_bracket b.

(** The same, right after a read: also after a push-back. *)
Definition sim_read (a b : Tokenizer) : Prop :=
  sim a b /\ sim (unget a) (unget b).

(** Two runs ended alike: both out of fuel, or the same outcome and objects
    related by [R]. *)
Definition rel_res {A : Type} (R : Tokenizer -> Tokenizer -> Prop)
    (x y : option (Outcome A * Tokenizer)) : Prop :=
  match x, y with
  | None, None => True
  | Some (o1, a), Some (o2, b) => o1 = o2 /\ R a b
  | _, _ => False
  end.

(** Partial correctness of a computation: from an object satisfying [P], a
    run that comes back satisfies [Q]. *)
Definition hoare {A : Type} (P : Tokenizer -> Prop) (m : M A)
    (Q : Outcome A -> Tokenizer -> Prop) : Prop :=
  forall a, P a ->
    match m a with
    | None => True
    | Some (o, a') => Q o a'
    end.

(** The source is exhausted: no pending chunk, and the cursor is past the
    end of the current chunk. *)
Definition at_eof (a : Tokenizer) : Prop :=
  chunk_iter a = [] /\ len (cur_chunk a) <= char_index a.

(** The pending chunks are strings. *)
Definition str_stream (a : Tokenizer) : Prop :=
  forallb is_str (chunk_iter a) = true.

(** The exception was built by [_error]: an instance of the error class of
    [a0] with the file name of [a0] and the line number [a] has now. *)
Definition built_by_error_type (a0 : Tokenizer) (e : PyExc) (a : Tokenizer)
    : Prop :=
  exists message,
    e = ErrorInstance (error_type a0) message (filename a0) (line_num a).

(** The exception is the built-in [TypeError] the character source raises
    for a chunk that is not a string. *)
Definition chunk_error (e : PyExc) : Prop :=
  exists message, e = TypeError message.

(** The cursor is at least [k] and the configuration is the one of [a0]. *)
Definition cursor_from (a0 : Tokenizer) (k : Z) (a : Tokenizer) : Prop :=
  k <= char_index a /\ same_config a0 a.

(** The same, and an exception raised is one of the two kinds above or the
    one for the sentinel. *)
Definition error_post {A : Type} (a0 : Tokenizer) (k : Z) (o : Outcome A)
    (a : Tokenizer) : Prop :=
  cursor_from a0 k a
  /\ forall e, o = Raise e ->
       built_by_error_type a0 e a \/ chunk_error e \/ e = sentinel_error.

(** After a read on a stream of strings: the stream is still one, "no more
    characters" means the source is exhausted, and no exception comes from
    a chunk. *)
Definition read_post (o : Outcome (option ascii)) (a : Tokenizer) : Prop :=
  str_stream a /\ (o = Ret None -> at_eof a)
  /\ forall e, o = Raise e -> ~ chunk_error e.

(** What the inner loops leave: never an EOF token. *)
Definition loop_post (o : Outcome TokenPair) (a : Tokenizer) : Prop :=
  str_stream a /\ (forall v, o <> Ret (EOF, v))
  /\ forall e, o = Raise e -> ~ chunk_error e.

(** What [_next_token] leaves: EOF only from an exhausted source. *)
Definition token_post (o : Outcome TokenPair) (a : Tokenizer) : Prop :=
  str_stream a /\ (forall v, o = Ret (EOF, v) -> at_eof a /\ v = None)
  /\ forall e, o = Raise e -> ~ chunk_error e.

(** Every character of the text can stand inside a bare name. *)
Fixpoint all_bare (w : string) : bool :=
  match w with
  | EmptyString => true
  | String c w' => negb (char_in c BARE_DISALLOWED) && all_bare w'
  end.

(** The text is empty or starts with a character that ends a bare name. *)
Definition ends_bare (t : string) : bool :=
  match t with
  | EmptyString => true
  | String d _ => char_in d BARE_DISALLOWED
  end.

(** The text is empty or starts with a newline. *)
Definition ends_line (t : string) : bool :=
  match t with
  | EmptyString => true
  | String d _ => (d =? ch_nl)%char
  end.

(** What an escape sequence adds to the value of a quoted string, after the
    words of the specification: [n] a newline, [t] a tab, a newline nothing,
    a quote, a backslash or a slash itself, anything else the backslash and
    the character. *)
Definition escape_decoded (e : ascii) : list string :=
  if (e =? "n")%char then [str1 ch_nl]
  else if (e =? "t")%char then [str1 ch_tab]
  else if (e =? ch_nl)%char then []
  else if (e =? ch_dquote)%char || (e =? ch_bslash)%char || (e =? "/")%char
       then [str1 e]
  else [String ch_bslash (str1 e)].

(** The value of a quoted string whose text between the quotes is [body],
    after the words of the specification: the characters one by one, each
    escape sequence replaced by what it stands for. *)
Fixpoint decoded (body : string) : string :=
  match body with
  | EmptyString => EmptyString
  | String c rest =>
      if (c =? ch_bslash)%char then
        match rest with
        | String e rest' => (join (escape_decoded e) ++ decoded rest')%string
        | EmptyString => EmptyString
        end
      else String c (decoded rest)
  end.

(** [body] can stand between the quotes of a string: it has no double quote
    but as an escape character, and does not end with the backslash of an
    escape sequence. *)
Fixpoint string_body (body : string) : bool :=
  match body with
  | EmptyString => true
  | String c rest =>
      if (c =? ch_bslash)%char then
        match rest with
        | String _ rest' => string_body rest'
        | EmptyString => false
        end
      else negb (c =? ch_dquote)%char && string_body rest
  end.

(** A character that starts a bare name: allowed in one, and neither an
    operator nor the start of a comment. *)
Definition starts_bare (c : ascii) : bool :=
  negb (char_in c BARE_DISALLOWED)
  && negb ((c =? "+")%char || (c =? "=")%char || (c =? "/")%char).

(** The tokenizer of a whole string with the default error class, as
    [Tokenizer(text, string_bracket=bracket)] builds it. *)
Definition of_string (text : string) (bracket : bool) : Tokenizer :=
  {| cur_chunk := text; chunk_iter := []; char_index := -1;
     error_type := TokenSyntaxError; filename := EmptyString; line_num := 1;
     string_bracket := bracket |}.

(** The text has no newline. *)
Fixpoint no_newline (s : string) : bool :=
  match s with
  | EmptyString => true
  | String c s' => negb (c =? ch_nl)%char && no_newline s'
  end.

(** The text does not start with a slash. *)
Definition no_slash_ahead (t : string) : bool :=
  match t with
  | EmptyString => true
  | String d _ => negb (d =? "/")%char
  end.



(** Every result of [m] is a result of [m']: [m'] has at least the fuel of
    [m]. *)
Definition fuel_le {A : Type} (m m' : M A) : Prop :=
  forall a r, m a = Some r -> m' a = Some r.

(** ** The rest of the class *)

(** [Tokenizer.__call__]. *)
Definition __call__ (fuel : nat) : M TokenPair := _next_token fuel.

(** [tok == self._tok_EOF] for a returned pair: the kinds are the same member
    and the values are equal; the value of the sentinel is [None]. *)
Definition is_tok_EOF (tok : TokenPair) : bool :=
  Token_eqb (fst tok) EOF
  && match snd tok with
     | None => true
     | Some _ => false
     end.

(** [Tokenizer.__iter__], which is [iter(self, self._tok_EOF)], consumed to
    its end: the object is called until it returns the sentinel, which is not
    yielded, or raises.  The result has the pairs yielded and the exception
    that ended the iteration, if any; [n] bounds the number of calls. *)
Fixpoint __iter__ (fuel n : nat) (self : Tokenizer)
    : option (list TokenPair * option PyExc * Tokenizer) :=
  match n with
  | O => None
  | S n' =>
      match __call__ fuel self with
      | None => None
      | Some (Raise e, self') => Some ([], Some e, self')
      | Some (Ret tok, self') =>
          if is_tok_EOF tok then Some ([], None, self')
          else
            match __iter__ fuel n' self' with
            | None => None
            | Some (toks, e, self'') => Some (tok :: toks, e, self'')
            end
      end
  end.

(** No character of [body] is one of [stops]. *)
Fixpoint none_of (stops body : string) : bool :=
  match body with
  | EmptyString => true
  | String c body' => negb (char_in c stops) && none_of stops body'
  end.

(** The characters of a text, as [value_chars] holds them. *)
Fixpoint chars (s : string) : list string :=
  match s with
  | EmptyString => []
  | String c s' => str1 c :: chars s'
  end.

(** The characters that end a property flag: the bracket and the newline. *)
Definition flag_stops : string := String "]" (str1 ch_nl).

(** The characters with a meaning of their own in a quoted string. *)
Definition string_stops : string := String ch_dquote (str1 ch_bslash).

(** Space and tab. *)
Definition blanks : string := String " " (str1 ch_tab).

(** The characters that can start no token. *)
Definition stray : string := String ch_squote "<>;)".

(** What a returned pair looks like: EOF has no value, the fixed tokens
    carry their character, a group has no closing parenthesis in its value,
    a flag neither a closing bracket nor a newline. *)
Definition token_shape (tok : TokenPair) : bool :=
  match tok with
  | (EOF, None) => true
  | (EOF, Some _) => false
  | (_, None) => false
  | (STRING, Some _) => true
  | (NEWLINE, Some v) => (v =? str1 ch_nl)%string
  | (PAREN_ARGS, Some v) => negb (char_in ")" v)
  | (BRACE_OPEN, Some v) => (v =? "{")%string
  | (BRACE_CLOSE, Some v) => (v =? "}")%string
  | (PROP_FLAG, Some v) => none_of flag_stops v
  | (BRACK_OPEN, Some v) => (v =? "[")%string
  | (BRACK_CLOSE, Some v) => (v =? "]")%string
  | (COLON, Some v) => (v =? ":")%string
  | (EQUALS, Some v) => (v =? "=")%string
  | (PLUS, Some v) => (v =? "+")%string
  end.

(** The text is made of spaces and tabs. *)
Fixpoint all_blank (ws : string) : bool :=
  match ws with
  | EmptyString => true
  | String c ws' => char_in c blanks && all_blank ws'
  end.

(** The characters of [BARE_DISALLOWED] that start a token or are skipped. *)
Definition token_starts : string :=
  String ch_dquote ("{}:[](" ++ String ch_nl (String ch_tab " ")).

(** The chunks that are not empty. *)
Definition drop_empty (chunks : list string) : list string :=
  filter (fun chunk => negb (chunk =? EmptyString)%string) chunks.


(** * Properties *)

Local Open Scope string_scope.

Ltac splits := repeat match goal with |- _ /\ _ => split end.

(** ** Strings *)

Lemma append_nil_r (s : string) : s ++ "" = s.
Proof. induction s; simpl; congruence. Qed.

Lemma append_assoc (a b c : string) : (a ++ b) ++ c = a ++ (b ++ c).
Proof. induction a; simpl; congruence. Qed.

Lemma length_append (a b : string) :
  String.length (a ++ b) = (String.length a + String.length b)%nat.
Proof. induction a; simpl; congruence. Qed.

Lemma drop_get (s : string) : forall n c,
  String.get n s = Some c -> drop n s = String c (drop (S n) s).
Proof.
  induction s as [|a s IH]; intros n c H; [destruct n; discriminate|].
  destruct n as [|n]; simpl in H.
  - injection H as ->. destruct s; reflexivity.
  - simpl. apply IH. exact H.
Qed.

Lemma drop_past_end (s : string) : forall n,
  (String.length s <= n)%nat -> drop n s = "".
Proof.
  induction s as [|a s IH]; intros [|n] H; simpl in *; try reflexivity; try lia.
  apply IH. lia.
Qed.

Lemma get_in_range (s : string) : forall n,
  (n < String.length s)%nat -> exists c, String.get n s = Some c.
Proof.
  induction s as [|a s IH]; intros [|n] H; simpl in *; try lia; eauto.
  apply IH. lia.
Qed.

Lemma join_snoc (l : list string) (s : string) :
  join (l ++ [s]) = join l ++ s.
Proof.
  unfold join. induction l as [|a l IH]; simpl.
  - reflexivity.
  - destruct l as [|b l]; simpl in *; [reflexivity|].
    rewrite IH, append_assoc. reflexivity.
Qed.

Lemma join_cons (s : string) (l : list string) :
  join (s :: l) = s ++ join l.
Proof.
  unfold join. destruct l; simpl; [symmetry; apply append_nil_r | reflexivity].
Qed.

Lemma count_nl_append (a b : string) :
  count_nl (a ++ b) = (count_nl a + count_nl b)%nat.
Proof. induction a; simpl; lia. Qed.

(** ** The line counter *)

Lemma wrap_int_range (z : Z) : int_range (wrap_int z).
Proof.
  unfold int_range, wrap_int.
  pose proof (Z.mod_pos_bound (z + 2147483648) 4294967296). lia.
Qed.

Lemma wrap_int_small (z : Z) : int_range z -> wrap_int z = z.
Proof.
  unfold int_range, wrap_int. intros H.
  rewrite Z.mod_small; lia.
Qed.

Lemma wrap_int_idem (x y : Z) : wrap_int (wrap_int x + y) = wrap_int (x + y).
Proof.
  unfold wrap_int.
  replace ((x + 2147483648) mod 4294967296 - 2147483648 + y + 2147483648)
    with ((x + 2147483648) mod 4294967296 + y) by lia.
  rewrite Zplus_mod_idemp_l.
  replace (x + 2147483648 + y) with (x + y + 2147483648) by lia.
  reflexivity.
Qed.

Lemma add_lines_add (n m : nat) : forall line,
  add_lines line (n + m) = add_lines (add_lines line n) m.
Proof. induction n as [|n IH]; intros line; simpl; [reflexivity | apply IH]. Qed.

(** After at least one increment the counter is the wrapped sum. *)
Lemma add_lines_wrap (n : nat) : forall line,
  add_lines line (S n) = wrap_int (line + Z.of_nat (S n)).
Proof.
  induction n as [|n IH]; intros line.
  - reflexivity.
  - change (add_lines line (S (S n)))
      with (add_lines (wrap_int (line + 1)) (S n)).
    rewrite IH, wrap_int_idem. f_equal. lia.
Qed.

(** While the counter stays in the range of [int] it is the plain sum. *)
Lemma add_lines_in_range (line : Z) (n : nat) :
  int_range line -> line + Z.of_nat n <= 2147483647 ->
  add_lines line n = line + Z.of_nat n.
Proof.
  intros Hr Hmax. destruct n as [|n]; [simpl; lia|].
  rewrite add_lines_wrap. apply wrap_int_small.
  unfold int_range in *. lia.
Qed.

(** The counter wraps around at the largest [int]. *)
Lemma add_lines_overflow : add_lines 2147483647 1 = -2147483648.
Proof. reflexivity. Qed.

Lemma continuations_le : forall n s,
  (String.length s <= n)%nat -> (continuations s <= count_nl s)%nat.
Proof.
  induction n as [|n IH]; intros [|c s] H; simpl in *; try lia.
  destruct (c =? ch_dquote)%char; [lia|].
  destruct (c =? ch_bslash)%char.
  - destruct s as [|e s]; [lia|]. simpl in *.
    assert (He : (continuations s <= count_nl s)%nat) by (apply IH; lia).
    destruct (c =? ch_nl)%char, (e =? ch_nl)%char; lia.
  - assert (He : (continuations s <= count_nl s)%nat) by (apply IH; lia).
    destruct (c =? ch_nl)%char; lia.
Qed.

Lemma continuations_count (s : string) : (continuations s <= count_nl s)%nat.
Proof. apply (continuations_le (String.length s)). lia. Qed.

Lemma uncounted_count (p : string) : (uncounted p <= count_nl p)%nat.
Proof.
  induction p as [|c p IH]; cbn [uncounted count_nl]; [lia|].
  pose proof (continuations_count p).
  destruct (c =? ch_dquote)%char; [lia|].
  destruct (char_in c (String " " (str1 ch_tab))); lia.
Qed.

(** A text that is empty or starts with a newline starts no quoted string. *)
Lemma uncounted_ends_line (p t : string) :
  ends_line (p ++ t) = true -> uncounted p = O.
Proof.
  destruct p as [|c p]; [reflexivity|]. simpl. intros H.
  apply Ascii.eqb_eq in H. subst c. reflexivity.
Qed.

(** Where no backslash is followed by a newline there is no continuation. *)
Lemma continuations_none : forall n s,
  (String.length s <= n)%nat -> no_bslash_nl s = true -> continuations s = O.
Proof.
  induction n as [|n IH]; intros [|c s] H Hn; try reflexivity; [simpl in H; lia|].
  cbn [continuations].
  destruct (c =? ch_dquote)%char; [reflexivity|].
  destruct (c =? ch_bslash)%char eqn:Eb.
  - destruct s as [|e s]; [reflexivity|].
    simpl in Hn. rewrite Eb in Hn. simpl in Hn.
    apply andb_true_iff in Hn. destruct Hn as [He Hn].
    apply andb_true_iff in Hn. destruct Hn as [_ Hn].
    apply negb_true_iff in He. rewrite He.
    simpl in H. simpl. apply IH; [lia | exact Hn].
  - simpl in H. apply IH; [lia|].
    simpl in Hn. apply andb_true_iff in Hn. apply Hn.
Qed.

Lemma uncounted_none (p : string) :
  no_bslash_nl p = true -> uncounted p = O.
Proof.
  induction p as [|c p IH]; intros Hn; [reflexivity|].
  assert (Hp : no_bslash_nl p = true).
  { simpl in Hn. apply andb_true_iff in Hn. apply Hn. }
  cbn [uncounted].
  destruct (c =? ch_dquote)%char;
    [apply (continuations_none (String.length p)); [lia | exact Hp]|].
  destruct (char_in c (String " " (str1 ch_tab))); [apply IH; exact Hp | reflexivity].
Qed.

Lemma no_bslash_nl_tail (c : ascii) (s : string) :
  no_bslash_nl (String c s) = true -> no_bslash_nl s = true.
Proof. simpl. intros H. apply andb_true_iff in H. apply H. Qed.

Lemma no_bslash_nl_append (a b : string) :
  no_bslash_nl (a ++ b) = true ->
  no_bslash_nl a = true /\ no_bslash_nl b = true.
Proof.
  induction a as [|c a IH]; simpl; intros H; [auto|].
  apply andb_true_iff in H. destruct H as [H1 H2].
  destruct (IH H2) as [Ha Hb]. split; [|exact Hb].
  rewrite Ha, andb_true_r.
  destruct a as [|d a]; [reflexivity | exact H1].
Qed.

(** ** The character source *)

Lemma skip_empty_chunks_spec (it : list Chunk) : forall self,
  forallb is_str it = true ->
  exists o self',
    skip_empty_chunks self it = (Ret o, self')
    /\ forallb is_str (chunk_iter self') = true
    /\ char_index self' = char_index self
    /\ line_num self' = line_num self
    /\ same_config self self'
    /\ match o with
       | Some c =>
           exists r, cur_chunk self' = String c r
           /\ join (map chunk_text it)
              = String c (r ++ join (map chunk_text (chunk_iter self')))
       | None =>
           join (map chunk_text it) = "" /\ chunk_iter self' = []
           /\ cur_chunk self' = cur_chunk self
       end.
Proof.
  induction it as [|ch it IH]; intros self Hstr.
  - simpl. do 2 eexists. split; [reflexivity|]. simpl.
    repeat split; auto.
  - simpl in Hstr. apply andb_true_iff in Hstr. destruct Hstr as [Hc Hit].
    destruct ch as [s| |]; try discriminate.
    simpl. destruct s as [|c r].
    + destruct (IH self Hit) as (o & self' & E & H).
      exists o, self'. split; [exact E|].
      rewrite join_cons. simpl. exact H.
    + do 2 eexists. split; [reflexivity|]. simpl.
      repeat split; auto.
      exists r. split; [reflexivity|]. rewrite join_cons. reflexivity.
Qed.

Lemma next_char_spec (self : Tokenizer) :
  wf self ->
  exists o self', _next_char self = (Ret o, self') /\ after_read self self' o.
Proof.
  intros [Hidx Hstr]. unfold _next_char, after_read, wf, remaining, unget.
  destruct self as [cur it idx cls file line br]; simpl in *.
  destruct (Z.ltb_spec (idx + 1) (len cur)) as [Hlt|Hge].
  - unfold py_getitem. destruct (Z.ltb_spec (idx + 1) 0) as [?|_]; [lia|].
    destruct (get_in_range cur (Z.to_nat (idx + 1))) as [c Hc];
      [unfold len in Hlt; lia|].
    rewrite Hc. do 2 eexists. split; [reflexivity|]. simpl.
    replace (idx + 1 - 1 + 1) with (idx + 1) by lia.
    replace (Z.to_nat (idx + 1 + 1)) with (S (Z.to_nat (idx + 1))) by lia.
    rewrite (drop_get _ _ _ Hc). simpl.
    repeat split; auto; lia.
  - assert (Hd : forall k, idx + 1 <= k -> drop (Z.to_nat k) cur = "").
    { intros k Hk. apply drop_past_end. unfold len in Hge. lia. }
    destruct it as [|[s| |] it]; simpl in Hstr; try discriminate.
    + do 2 eexists. split; [reflexivity|]. simpl.
      replace (idx + 1 - 1 + 1) with (idx + 1) by lia.
      rewrite !Hd by lia. simpl. repeat split; auto; lia.
    + destruct s as [|c r].
      * match goal with
        | |- context [skip_empty_chunks ?s0 it] =>
            destruct (skip_empty_chunks_spec it s0 Hstr)
              as (o & self' & E & Hs & Hi & Hl & Hcfg & Ho)
        end.
        exists o, self'. split; [exact E|]. simpl in *.
        rewrite Hi. rewrite Hd by lia. simpl.
        rewrite join_cons. simpl.
        destruct Hcfg as (Hf & He & Hb). simpl in Hf, He, Hb.
        repeat split; auto; try lia.
        destruct o as [c|].
        -- destruct Ho as (r & Hcur & Hj). rewrite Hcur, Hj. simpl. auto.
        -- destruct Ho as (Hj & Hit & Hcur). rewrite Hcur, Hit, Hj. simpl. auto.
      * do 2 eexists. split; [reflexivity|]. simpl.
        rewrite Hd by lia. rewrite join_cons. simpl.
        repeat split; auto; lia.
Qed.

(** ** More fuel gives the same result *)

Lemma fuel_le_refl {A : Type} (m : M A) : fuel_le m m.
Proof. intros a r H. exact H. Qed.

Lemma fuel_le_out_of_fuel {A : Type} (m : M A) : fuel_le out_of_fuel m.
Proof. intros a r H. discriminate H. Qed.

Lemma fuel_le_bind {A B : Type} (m m' : M A) (k k' : A -> M B) :
  fuel_le m m' -> (forall v, fuel_le (k v) (k' v)) ->
  fuel_le (bind m k) (bind m' k').
Proof.
  intros Hm Hk a r. unfold bind.
  destruct (m a) as [[[v|e] a1]|] eqn:E; [| |discriminate];
    rewrite (Hm a _ E); [apply Hk | auto].
Qed.

Ltac fuel_auto closing :=
  lazymatch goal with
  | |- fuel_le (if ?c then _ else _) _ => destruct c; fuel_auto closing
  | |- fuel_le (match ?x with Some _ => _ | None => _ end) _ =>
      destruct x; fuel_auto closing
  | |- fuel_le (bind _ _) (bind _ _) =>
      apply fuel_le_bind; [fuel_auto closing | intros ?; fuel_auto closing]
  | |- fuel_le ?m ?m => apply fuel_le_refl
  | |- _ => closing
  end.

Lemma skip_comment_fuel (f : nat) : forall f',
  (f <= f')%nat -> fuel_le (skip_comment f) (skip_comment f').
Proof.
  induction f as [|f IH]; intros f' Hf; [apply fuel_le_out_of_fuel|].
  destruct f' as [|f']; [lia|]. cbn [skip_comment].
  fuel_auto ltac:(apply IH; lia).
Qed.

Lemma read_string_fuel (f : nat) : forall f' vc,
  (f <= f')%nat -> fuel_le (read_string f vc) (read_string f' vc).
Proof.
  induction f as [|f IH]; intros f' vc Hf; [apply fuel_le_out_of_fuel|].
  destruct f' as [|f']; [lia|]. cbn [read_string].
  fuel_auto ltac:(apply IH; lia).
Qed.

Lemma read_flag_fuel (f : nat) : forall f' vc,
  (f <= f')%nat -> fuel_le (read_flag f vc) (read_flag f' vc).
Proof.
  induction f as [|f IH]; intros f' vc Hf; [apply fuel_le_out_of_fuel|].
  destruct f' as [|f']; [lia|]. cbn [read_flag].
  fuel_auto ltac:(apply IH; lia).
Qed.

Lemma read_parens_fuel (f : nat) : forall f' vc,
  (f <= f')%nat -> fuel_le (read_parens f vc) (read_parens f' vc).
Proof.
  induction f as [|f IH]; intros f' vc Hf; [apply fuel_le_out_of_fuel|].
  destruct f' as [|f']; [lia|]. cbn [read_parens].
  fuel_auto ltac:(apply IH; lia).
Qed.

Lemma read_bare_fuel (f : nat) : forall f' vc,
  (f <= f')%nat -> fuel_le (read_bare f vc) (read_bare f' vc).
Proof.
  induction f as [|f IH]; intros f' vc Hf; [apply fuel_le_out_of_fuel|].
  destruct f' as [|f']; [lia|]. cbn [read_bare].
  fuel_auto ltac:(apply IH; lia).
Qed.

Lemma next_token_fuel (f : nat) : forall f',
  (f <= f')%nat -> fuel_le (_next_token f) (_next_token f').
Proof.
  induction f as [|f IH]; intros f' Hf; [apply fuel_le_out_of_fuel|].
  destruct f' as [|f']; [lia|]. cbn [_next_token].
  fuel_auto ltac:(first
    [ apply IH | apply skip_comment_fuel | apply read_string_fuel
    | apply read_flag_fuel | apply read_parens_fuel | apply read_bare_fuel ];
    lia).
Qed.

(** Two amounts of fuel that both give a result give the same one. *)
Lemma next_token_fuel_irrelevant (f f' : nat) (a : Tokenizer)
    (r r' : Outcome TokenPair * Tokenizer) :
  _next_token f a = Some r -> _next_token f' a = Some r' -> r = r'.
Proof.
  intros H H'.
  destruct (Nat.le_ge_cases f f') as [Hle|Hle].
  - apply (next_token_fuel f f' Hle) in H. congruence.
  - apply (next_token_fuel f' f Hle) in H'. congruence.
Qed.

(** ** Termination, consumed text and line counting *)

Lemma same_config_refl (a : Tokenizer) : same_config a a.
Proof. repeat split. Qed.

Lemma same_config_trans (a b c : Tokenizer) :
  same_config a b -> same_config b c -> same_config a c.
Proof.
  unfold same_config. intros (? & ? & ?) (? & ? & ?).
  repeat split; congruence.
Qed.

Lemma ascii_eqb_true (c d : ascii) : (c =? d)%char = true -> c = d.
Proof. apply Ascii.eqb_eq. Qed.

(** Read one character in a goal about a loop body. *)
Ltac read_char Hwf o a1 E Hr :=
  match type of Hwf with
  | wf ?a =>
      destruct (next_char_spec a Hwf) as (o & a1 & E & Hr);
      unfold bind at 1; unfold next_char at 1; rewrite E
  end.

Lemma skip_comment_frame (f : nat) : forall a,
  wf a -> (String.length (remaining a) < f)%nat ->
  exists a' p,
    skip_comment f a = Some (Ret tt, a')
    /\ wf (unget a') /\ same_config a a' /\ line_num a' = line_num a
    /\ remaining a = p ++ remaining (unget a')
    /\ count_nl p = O
    /\ ends_line (remaining (unget a')) = true.
Proof.
  induction f as [|f IH]; intros a Hwf Hlen; [lia|].
  cbn [skip_comment].
  read_char Hwf o a1 E Hr.
  destruct Hr as (Hwf1 & Hwfu & Hl & Hcfg & Ho).
  destruct o as [c|].
  - destruct Ho as [Hrem Hun].
    destruct (c =? ch_nl)%char eqn:Ec.
    + exists a1, "". unfold ret. simpl.
      repeat split; auto; try apply Hwfu; try apply Hcfg.
      rewrite Hun, Hrem. simpl. exact Ec.
    + destruct (IH a1 Hwf1) as (a' & p & E' & Hwf' & Hcfg' & Hl' & Hrem' & Hp & He).
      { rewrite Hrem in Hlen. simpl in Hlen. lia. }
      exists a', (String c p). rewrite E'.
      split; [reflexivity|]. split; [exact Hwf'|].
      split; [eapply same_config_trans; eauto|].
      split; [congruence|].
      split; [rewrite Hrem, Hrem'; reflexivity|].
      split; [|exact He].
      simpl. rewrite Ec, Hp. reflexivity.
  - destruct Ho as (Hrem & Hrem1 & Hun).
    exists a1, "". unfold ret. simpl.
    repeat split; auto; try apply Hwfu; try apply Hcfg; try congruence.
    rewrite Hun. reflexivity.
Qed.

Lemma consumed_nil (a a' : Tokenizer) (p : string) :
  wf a' -> same_config a a' -> remaining a = p ++ remaining a' ->
  line_num a' = line_num a ->
  consumed a p a'.
Proof.
  intros Hwf Hcfg Hrem Hl. unfold consumed.
  split; [exact Hwf|]. split; [exact Hcfg|]. split; [exact Hrem|].
  exists O. split; [lia | exact Hl].
Qed.

(** Prefixing a run from [a1] with the text [q] read between [a] and [a1],
    during which the line counter was incremented [k] times; [n] and [m] are
    the increments of a run that returns, from [a1] and from [a]. *)
Lemma consumed_extend {A : Type} (o : Outcome A) (a a1 a' : Tokenizer)
    (q p : string) (k n m : nat) :
  remaining a = q ++ remaining a1 ->
  same_config a a1 ->
  line_num a1 = add_lines (line_num a) k ->
  (k <= count_nl q)%nat ->
  (k + n = m)%nat ->
  consumed a1 p a' /\ (returns o -> exact_lines a1 n a') ->
  consumed a (q ++ p) a' /\ (returns o -> exact_lines a m a').
Proof.
  intros Hrem Hcfg Hl Hk Hm [(Hwf & Hcfg' & Hrem' & k' & Hk' & Hl') Hex'].
  unfold consumed, exact_lines in *.
  split.
  - split; [exact Hwf|]. split; [eapply same_config_trans; eauto|].
    split; [rewrite Hrem, Hrem', append_assoc; reflexivity|].
    exists (k + k')%nat. rewrite count_nl_append, add_lines_add, <- Hl.
    split; [lia | exact Hl'].
  - intros Hr. rewrite <- Hm, add_lines_add, <- Hl. apply Hex'. exact Hr.
Qed.

Lemma read_parens_frame (f : nat) : forall vc a,
  wf a -> (String.length (remaining a) < f)%nat ->
  exists o a' p,
    read_parens f vc a = Some (o, a')
    /\ consumed a p a'
    /\ (returns o -> exact_lines a (count_nl p) a').
Proof.
  induction f as [|f IH]; intros vc a Hwf Hlen; [lia|].
  cbn [read_parens].
  read_char Hwf o a1 E Hr.
  destruct Hr as (Hwf1 & Hwfu & Hl & Hcfg & Ho).
  destruct o as [c|].
  - destruct Ho as [Hrem Hun].
    assert (Hlen1 : (String.length (remaining a1) < f)%nat).
    { rewrite Hrem in Hlen. simpl in Hlen. lia. }
    destruct (c =? ")")%char eqn:Ep.
    + do 2 eexists. exists (str1 c). split; [reflexivity|].
      split; [apply consumed_nil; auto|].
      intros _. unfold exact_lines.
      apply ascii_eqb_true in Ep. subst c. simpl. exact Hl.
    + destruct (c =? ch_nl)%char eqn:Ec.
      * unfold bind at 1, incr_line at 1.
        destruct (IH (vc ++ [str1 c])%list
                    (set_line_num a1 (wrap_int (line_num a1 + 1))))
          as (o & a' & p & E' & H); [exact Hwf1 | exact Hlen1 |].
        exists o, a', (str1 c ++ p). split; [exact E'|].
        apply (consumed_extend o a (set_line_num a1 (wrap_int (line_num a1 + 1)))
                 a' (str1 c) p 1 (count_nl p));
          simpl; try rewrite Ec; auto; try lia; try congruence.
      * destruct (IH (vc ++ [str1 c])%list a1)
          as (o & a' & p & E' & H); [exact Hwf1 | exact Hlen1 |].
        exists o, a', (str1 c ++ p). split; [exact E'|].
        apply (consumed_extend o a a1 a' (str1 c) p 0 (count_nl p));
          simpl; try rewrite Ec; auto; try lia.
  - destruct Ho as (Hrem & Hrem1 & Hun).
    do 2 eexists. exists "". split; [reflexivity|].
    split; [apply consumed_nil; auto; simpl; congruence|].
    intros [].
Qed.

Lemma read_flag_frame (f : nat) : forall vc a,
  wf a -> (String.length (remaining a) < f)%nat ->
  exists o a' p,
    read_flag f vc a = Some (o, a')
    /\ consumed a p a'
    /\ (returns o -> exact_lines a (count_nl p) a').
Proof.
  induction f as [|f IH]; intros vc a Hwf Hlen; [lia|].
  cbn [read_flag].
  read_char Hwf o a1 E Hr.
  destruct Hr as (Hwf1 & Hwfu & Hl & Hcfg & Ho).
  destruct o as [c|].
  - destruct Ho as [Hrem Hun].
    assert (Hlen1 : (String.length (remaining a1) < f)%nat).
    { rewrite Hrem in Hlen. simpl in Hlen. lia. }
    destruct (c =? "]")%char eqn:Ep.
    + do 2 eexists. exists (str1 c). split; [reflexivity|].
      split; [apply consumed_nil; auto|].
      intros _. unfold exact_lines.
      apply ascii_eqb_true in Ep. subst c. simpl. exact Hl.
    + destruct (c =? ch_nl)%char eqn:Ec.
      * do 2 eexists. exists (str1 c). split; [reflexivity|].
        split; [apply consumed_nil; auto|]. intros [].
      * destruct (IH (vc ++ [str1 c])%list a1)
          as (o & a' & p & E' & H); [exact Hwf1 | exact Hlen1 |].
        exists o, a', (str1 c ++ p). split; [exact E'|].
        apply (consumed_extend o a a1 a' (str1 c) p 0 (count_nl p));
          simpl; try rewrite Ec; auto; try lia.
  - destruct Ho as (Hrem & Hrem1 & Hun).
    do 2 eexists. exists "". split; [reflexivity|].
    split; [apply consumed_nil; auto; simpl; congruence|].
    intros [].
Qed.

Lemma bare_char_not_nl (c : ascii) :
  char_in c BARE_DISALLOWED = false -> (c =? ch_nl)%char = false.
Proof.
  intros H. destruct (c =? ch_nl)%char eqn:E; [|reflexivity].
  apply ascii_eqb_true in E. subst c. discriminate H.
Qed.

Lemma read_bare_frame (f : nat) : forall vc a,
  wf a -> (String.length (remaining a) < f)%nat ->
  exists o a' p,
    read_bare f vc a = Some (o, a')
    /\ consumed a p a'
    /\ (returns o -> exact_lines a (count_nl p) a').
Proof.
  induction f as [|f IH]; intros vc a Hwf Hlen; [lia|].
  cbn [read_bare].
  read_char Hwf o a1 E Hr.
  destruct Hr as (Hwf1 & Hwfu & Hl & Hcfg & Ho).
  destruct o as [c|].
  - destruct Ho as [Hrem Hun].
    assert (Hlen1 : (String.length (remaining a1) < f)%nat).
    { rewrite Hrem in Hlen. simpl in Hlen. lia. }
    destruct (char_in c BARE_DISALLOWED) eqn:Ep.
    + do 2 eexists. exists "". split; [reflexivity|].
      split; [apply consumed_nil; auto|].
      intros _. unfold exact_lines. simpl. exact Hl.
    + pose proof (bare_char_not_nl c Ep) as Ec.
      destruct (IH (vc ++ [str1 c])%list a1)
        as (o & a' & p & E' & H); [exact Hwf1 | exact Hlen1 |].
      exists o, a', (str1 c ++ p). split; [exact E'|].
      apply (consumed_extend o a a1 a' (str1 c) p 0 (count_nl p));
        simpl; try rewrite Ec; auto; try lia.
  - destruct Ho as (Hrem & Hrem1 & Hun).
    do 2 eexists. exists "". split; [reflexivity|].
    split; [apply consumed_nil; auto; simpl; congruence|].
    intros _. unfold exact_lines. simpl. exact Hl.
Qed.

(** The loop of a quoted string counts the newlines it reads, but for the
    line continuations. *)
Lemma read_string_frame (f : nat) : forall vc a,
  wf a -> (String.length (remaining a) < f)%nat ->
  exists o a' p,
    read_string f vc a = Some (o, a')
    /\ consumed a p a'
    /\ (returns o -> exact_lines a (count_nl p - continuations p) a').
Proof.
  induction f as [|f IH]; intros vc a Hwf Hlen; [lia|].
  cbn [read_string].
  read_char Hwf o a1 E Hr.
  destruct Hr as (Hwf1 & Hwfu & Hl & Hcfg & Ho).
  destruct o as [c|].
  - destruct Ho as [Hrem Hun].
    assert (Hlen1 : (String.length (remaining a1) < f)%nat).
    { rewrite Hrem in Hlen. simpl in Hlen. lia. }
    destruct (c =? ch_dquote)%char eqn:Eq.
    { do 2 eexists. exists (str1 c). split; [reflexivity|].
      split; [apply consumed_nil; auto|].
      intros _. unfold exact_lines.
      apply ascii_eqb_true in Eq. subst c. simpl. exact Hl. }
    destruct (c =? ch_nl)%char eqn:Ec.
    { unfold bind at 1, incr_line at 1.
      destruct (IH (vc ++ [str1 c])%list
                  (set_line_num a1 (wrap_int (line_num a1 + 1))))
        as (o & a' & p & E' & H); [exact Hwf1 | exact Hlen1 |].
      exists o, a', (str1 c ++ p). split; [exact E'|].
      pose proof (continuations_count p).
      apply ascii_eqb_true in Ec. subst c.
      apply (consumed_extend o a (set_line_num a1 (wrap_int (line_num a1 + 1)))
               a' (str1 ch_nl) p 1 (count_nl p - continuations p));
        simpl; auto; try lia; try congruence.
      destruct (continuations p); lia. }
    destruct (c =? ch_bslash)%char eqn:Eb.
    2:{ destruct (IH (vc ++ [str1 c])%list a1)
          as (o & a' & p & E' & H); [exact Hwf1 | exact Hlen1 |].
        exists o, a', (str1 c ++ p). split; [exact E'|].
        apply (consumed_extend o a a1 a' (str1 c) p 0
                 (count_nl p - continuations p));
          simpl; try rewrite Eq; try rewrite Ec; try rewrite Eb; auto; try lia. }
    apply ascii_eqb_true in Eb. subst c.
    read_char Hwf1 o2 a2 E2 Hr2.
    destruct Hr2 as (Hwf2 & Hwfu2 & Hl2 & Hcfg2 & Ho2).
    destruct o2 as [e|].
    + destruct Ho2 as [Hrem2 Hun2].
      assert (Hlen2 : (String.length (remaining a2) < f)%nat).
      { rewrite Hrem2 in Hlen1. simpl in Hlen1. lia. }
      assert (Hrem' : remaining a = String ch_bslash (str1 e) ++ remaining a2).
      { rewrite Hrem, Hrem2. reflexivity. }
      assert (Hcfg' : same_config a a2) by (eapply same_config_trans; eauto).
      assert (Hl' : line_num a2 = add_lines (line_num a) 0) by (simpl; congruence).
      assert (Hgo : forall vc',
        exists o a' p,
          read_string f vc' a2 = Some (o, a')
          /\ consumed a p a'
          /\ (returns o -> exact_lines a (count_nl p - continuations p) a')).
      { intros vc'.
        destruct (IH vc' a2) as (o & a' & p & E' & H); [exact Hwf2 | exact Hlen2 |].
        exists o, a', (String ch_bslash (str1 e) ++ p). split; [exact E'|].
        pose proof (continuations_count p).
        apply (consumed_extend o a a2 a' (String ch_bslash (str1 e)) p 0
                 (count_nl p - continuations p)); auto.
        - lia.
        - simpl. destruct (e =? ch_nl)%char; lia. }
      repeat match goal with
             | |- context [if ?b then _ else _] => destruct b
             end; apply Hgo.
    + destruct Ho2 as (Hrem2 & Hrem2' & Hun2).
      do 2 eexists. exists (str1 ch_bslash). split; [reflexivity|].
      split; [|intros []].
      apply consumed_nil; auto.
      * eapply same_config_trans; eauto.
      * rewrite Hrem, Hrem2, Hrem2'. reflexivity.
      * congruence.
  - destruct Ho as (Hrem & Hrem1 & Hun).
    do 2 eexists. exists "". split; [reflexivity|].
    split; [apply consumed_nil; auto; simpl; congruence|].
    intros [].
Qed.

Ltac head_if :=
  match goal with
  | |- exists _ _ _, (if ?b then _ else _) _ = _ /\ _ => destruct b eqn:?
  end.

Ltac fixed_token Hfixed c :=
  apply Hfixed;
  match goal with
  | H : (c =? _)%char = true |- _ =>
      apply ascii_eqb_true in H; subst c; reflexivity
  end.

(** A token, an error or the end: [_next_token] always comes back when
    its fuel exceeds the length of the text still to read.  A call that
    returns has incremented the line counter once for each newline it read,
    but for the line continuations of a quoted string. *)
Lemma next_token_frame (f : nat) : forall a,
  wf a -> (String.length (remaining a) < f)%nat ->
  exists o a' p,
    _next_token f a = Some (o, a')
    /\ consumed a p a'
    /\ (returns o -> exact_lines a (count_nl p - uncounted p) a')
    /\ (p = "" -> o = Ret _tok_EOF).
Proof.
  induction f as [|f IH]; intros a Hwf Hlen; [lia|].
  cbn [_next_token].
  read_char Hwf o a1 E Hr.
  destruct Hr as (Hwf1 & Hwfu & Hl & Hcfg & Ho).
  destruct o as [c|].
  2:{ destruct Ho as (Hrem & Hrem1 & Hun).
      do 2 eexists. exists "". split; [reflexivity|].
      split; [apply consumed_nil; auto; simpl; congruence|].
      split; [|reflexivity].
      intros _. unfold exact_lines. simpl. exact Hl. }
  destruct Ho as [Hrem Hun].
  assert (Hlen1 : (String.length (remaining a1) < f)%nat).
  { rewrite Hrem in Hlen. simpl in Hlen. lia. }
  (* a fixed token for the character [c], which is not a newline *)
  assert (Hfixed : forall (o : Outcome TokenPair),
    (c =? ch_nl)%char = false ->
    exists o' a' p,
      Some (o, a1) = Some (o', a')
      /\ consumed a p a'
      /\ (returns o' -> exact_lines a (count_nl p - uncounted p) a')
      /\ (p = "" -> o' = Ret _tok_EOF)).
  { intros o Hc. exists o, a1, (str1 c). split; [reflexivity|].
    split; [apply consumed_nil; auto|].
    split; [|discriminate].
    intros _. unfold exact_lines. simpl. rewrite Hc. simpl. exact Hl. }
  (* an inner loop started after the character [c]; it counts [n p] lines *)
  assert (Hloop : forall (m : M TokenPair) (n : string -> nat),
    (c =? ch_nl)%char = false ->
    (forall p, n p = (count_nl (String c p) - uncounted (String c p))%nat) ->
    (exists o a' p,
       m a1 = Some (o, a') /\ consumed a1 p a'
       /\ (returns o -> exact_lines a1 (n p) a')) ->
    exists o a' p,
      m a1 = Some (o, a')
      /\ consumed a p a'
      /\ (returns o -> exact_lines a (count_nl p - uncounted p) a')
      /\ (p = "" -> o = Ret _tok_EOF)).
  { intros m n Hc Hn (o & a' & p & E' & H).
    exists o, a', (str1 c ++ p). split; [exact E'|].
    rewrite <- and_assoc. split; [|discriminate].
    apply (consumed_extend o a a1 a' (str1 c) p 0 (n p)); auto.
    - simpl. lia.
    - rewrite Hn. reflexivity. }
  do 6 (head_if; [fixed_token Hfixed c|]).
  head_if.
  { (* newline *)
    unfold bind, incr_line, ret.
    do 2 eexists. exists (str1 c). split; [reflexivity|].
    apply ascii_eqb_true in Heqb5. subst c.
    split; [|split; [|discriminate]].
    + split; [exact Hwf1|]. split; [exact Hcfg|]. split; [exact Hrem|].
      exists 1%nat. split; [simpl; lia|]. simpl. rewrite Hl. reflexivity.
    + intros _. unfold exact_lines. simpl. rewrite Hl. reflexivity. }
  assert (Hfix : forall o : Outcome TokenPair,
    exists o' a' p,
      Some (o, a1) = Some (o', a')
      /\ consumed a p a'
      /\ (returns o' -> exact_lines a (count_nl p - uncounted p) a')
      /\ (p = "" -> o' = Ret _tok_EOF)) by (intros; apply Hfixed; reflexivity).
  specialize (fun m n => Hloop m n eq_refl). clear Hfixed.
  head_if.
  { (* white space *)
    apply (Hloop _ (fun p => (count_nl p - uncounted p)%nat)).
    - intros p. cbn [count_nl uncounted]. rewrite Heqb5.
      destruct (c =? ch_dquote)%char eqn:Edq;
        [apply ascii_eqb_true in Edq; subst c; discriminate|].
      rewrite Heqb6. reflexivity.
    - destruct (IH a1 Hwf1 Hlen1) as (o & a' & p & E' & H1 & H2 & _).
      eauto 6. }
  (* from here on [c] starts no quoted string unless it is the quote *)
  assert (Hplain : (c =? ch_dquote)%char = false ->
    forall p, count_nl p
              = (count_nl (String c p) - uncounted (String c p))%nat).
  { intros Hdq p. cbn [count_nl uncounted]. rewrite Heqb5, Hdq, Heqb6.
    simpl. lia. }
  head_if.
  { (* slash *)
    read_char Hwf1 o2 a2 E2 Hr2.
    destruct Hr2 as (Hwf2 & Hwfu2 & Hl2 & Hcfg2 & Ho2).
    destruct o2 as [c2|].
    2:{ unfold raise_error. destruct Ho2 as (Hrem2 & Hrem2' & _).
        do 2 eexists. exists (str1 c). split; [reflexivity|].
        split; [|split; [intros []|discriminate]].
        apply consumed_nil; auto.
        - eapply same_config_trans; eauto.
        - rewrite Hrem, Hrem2, Hrem2'. reflexivity.
        - congruence. }
    destruct Ho2 as [Hrem2 Hun2].
    destruct (negb (c2 =? "/")%char) eqn:E3.
    { unfold raise_error.
      do 2 eexists. exists (String c (str1 c2)). split; [reflexivity|].
      split; [|split; [intros []|discriminate]].
      apply consumed_nil; auto.
      - eapply same_config_trans; eauto.
      - rewrite Hrem, Hrem2. reflexivity.
      - congruence. }
    apply negb_false_iff, ascii_eqb_true in E3. subst c2.
    apply ascii_eqb_true in Heqb7. subst c.
    assert (Hlen2 : (String.length (remaining a2) < f)%nat).
    { rewrite Hrem2 in Hlen1. simpl in Hlen1. lia. }
    destruct (skip_comment_frame f a2 Hwf2 Hlen2)
      as (a3 & pc & E3 & Hwf3 & Hcfg3 & Hl3 & Hrem3 & Hpc & Hel).
    unfold bind at 1. rewrite E3.
    unfold bind at 1, unget_char at 1.
    destruct (IH (unget a3) Hwf3) as (o & a' & p & E' & H1 & H2 & _).
    { rewrite Hrem3, length_append in Hlen2. lia. }
    exists o, a', (String "/" (String "/" pc) ++ p). split; [exact E'|].
    rewrite <- and_assoc. split; [|discriminate].
    assert (Hu : uncounted p = O).
    { destruct H1 as (_ & _ & Hp & _). rewrite Hp in Hel.
      exact (uncounted_ends_line _ _ Hel). }
    apply (consumed_extend o a (unget a3) a' (String "/" (String "/" pc)) p 0
             (count_nl p - uncounted p)); auto.
    - rewrite Hrem, Hrem2, Hrem3. reflexivity.
    - eapply same_config_trans; [exact Hcfg|].
      eapply same_config_trans; [exact Hcfg2|]. exact Hcfg3.
    - simpl. congruence.
    - lia.
    - rewrite Hu. cbn [count_nl uncounted append]. simpl.
      rewrite count_nl_append, Hpc. lia. }
  head_if.
  { apply (Hloop _ (fun p => (count_nl p - continuations p)%nat)).
    - intros p. cbn [count_nl uncounted]. rewrite Heqb5, Heqb8. reflexivity.
    - apply read_string_frame; assumption. }
  specialize (Hplain eq_refl).
  head_if.
  { unfold bind at 1, get_string_bracket at 1.
    destruct (negb (string_bracket a1)).
    - apply Hfix.
    - apply (Hloop _ count_nl); [exact Hplain|].
      apply read_flag_frame; assumption. }
  head_if.
  { apply (Hloop _ count_nl); [exact Hplain|].
    apply read_parens_frame; assumption. }
  head_if.
  { apply (Hloop _ count_nl); [exact Hplain|].
    apply read_bare_frame; assumption. }
  unfold raise_error. apply Hfix.
Qed.

(** ** Independence of the chunking *)

Lemma sim_read_sim (a b : Tokenizer) : sim_read a b -> sim a b.
Proof. intros [H _]. exact H. Qed.

Lemma next_char_sim (a b : Tokenizer) :
  sim a b -> rel_res sim_read (next_char a) (next_char b).
Proof.
  intros (Hwa & Hwb & Hrem & Hl & Hf & He & Hb).
  destruct (next_char_spec a Hwa) as (oa & a' & Ea & Hwa' & Hua & Hla & Hca & Hoa).
  destruct (next_char_spec b Hwb) as (ob & b' & Eb & Hwb' & Hub & Hlb & Hcb & Hob).
  unfold next_char, rel_res. rewrite Ea, Eb.
  destruct Hca as (? & ? & ?), Hcb as (? & ? & ?).
  assert (Hcfg : line_num a' = line_num b' /\ filename a' = filename b'
                 /\ error_type a' = error_type b'
                 /\ string_bracket a' = string_bracket b')
    by (repeat split; congruence).
  destruct Hcfg as (? & ? & ? & ?).
  destruct oa as [ca|], ob as [cb|].
  - destruct Hoa as [Ha Ha'], Hob as [Hb0 Hb'].
    rewrite Ha, Hb0 in Hrem. injection Hrem as -> Hrem.
    split; [reflexivity|].
    split; unfold sim; repeat split; try assumption; try apply Hwa';
      try apply Hwb'; try apply Hua; try apply Hub; simpl; congruence.
  - destruct Hoa as [Ha _], Hob as [Hb0 _]. congruence.
  - destruct Hoa as [Ha _], Hob as [Hb0 _]. congruence.
  - destruct Hoa as (Ha & Ha' & Ha''), Hob as (Hb0 & Hb' & Hb'').
    split; [reflexivity|].
    split; unfold sim; repeat split; try assumption; try apply Hwa';
      try apply Hwb'; try apply Hua; try apply Hub; simpl; congruence.
Qed.

Lemma bind_rel {A B : Type} (R R' : Tokenizer -> Tokenizer -> Prop)
    (m : M A) (k : A -> M B) (a b : Tokenizer) :
  (forall x y, R x y -> R' x y) ->
  rel_res R (m a) (m b) ->
  (forall v a' b', R a' b' -> rel_res R' (k v a') (k v b')) ->
  rel_res R' (bind m k a) (bind m k b).
Proof.
  intros Hsub Hm Hk. unfold bind, rel_res in *.
  destruct (m a) as [[[va|ea] a']|], (m b) as [[[vb|eb] b']|];
    try contradiction; try (destruct Hm; discriminate); auto.
  - destruct Hm as [Hv HR]. injection Hv as ->. apply Hk. exact HR.
  - destruct Hm as [Hv HR]. injection Hv as ->. auto.
Qed.

Lemma ret_rel {A : Type} (R : Tokenizer -> Tokenizer -> Prop) (v : A) a b :
  R a b -> rel_res R (ret v a) (ret v b).
Proof. intros H. simpl. auto. Qed.

Lemma raise_error_sim {A : Type} (msg : string) a b :
  sim a b -> rel_res (A := A) sim (raise_error msg a) (raise_error msg b).
Proof.
  intros H. simpl. split; [|exact H].
  destruct H as (_ & _ & _ & Hl & Hf & He & _).
  unfold _error. congruence.
Qed.

Lemma raise_token_sim {A : Type} (t : Token) a b :
  sim a b -> rel_res (A := A) sim (raise_token t a) (raise_token t b).
Proof.
  intros H. simpl. split; [|exact H].
  destruct H as (_ & _ & _ & Hl & Hf & He & _).
  unfold error, _error. congruence.
Qed.

Lemma raise_exc_sim {A : Type} (e : PyExc) a b :
  sim a b -> rel_res (A := A) sim (raise_exc e a) (raise_exc e b).
Proof. intros H. simpl. split; [reflexivity | exact H]. Qed.

Lemma incr_line_sim a b :
  sim a b -> rel_res sim (incr_line a) (incr_line b).
Proof.
  intros (Hwa & Hwb & Hrem & Hl & Hf & He & Hb). simpl.
  split; [reflexivity|]. unfold sim. simpl.
  repeat split; try apply Hwa; try apply Hwb; auto; congruence.
Qed.

Lemma unget_char_sim a b :
  sim_read a b -> rel_res sim (unget_char a) (unget_char b).
Proof. intros [_ H]. simpl. auto. Qed.

Lemma get_string_bracket_sim a b :
  sim a b -> rel_res sim (get_string_bracket a) (get_string_bracket b).
Proof.
  intros H. simpl. split; [|exact H].
  destruct H as (_ & _ & _ & _ & _ & _ & Hb). congruence.
Qed.

Lemma skip_comment_sim (f : nat) : forall a b,
  sim a b -> rel_res sim_read (skip_comment f a) (skip_comment f b).
Proof.
  induction f as [|f IH]; intros a b H; [exact I|].
  cbn [skip_comment].
  apply (bind_rel sim_read sim_read); [auto | apply next_char_sim; exact H |].
  intros [c|] a' b' H'.
  - destruct (c =? ch_nl)%char; [apply ret_rel; exact H'|].
    apply IH. apply sim_read_sim. exact H'.
  - apply ret_rel. exact H'.
Qed.

(** Walk through a loop body, one primitive at a time; [leaf] closes the
    calls of other loops. *)
Ltac sim_auto leaf :=
  lazymatch goal with
  | |- rel_res _ ((if ?c then _ else _) _) _ => destruct c; sim_auto leaf
  | |- rel_res _ (match ?x with Some _ => _ | None => _ end _) _ =>
      destruct x; sim_auto leaf
  | |- rel_res _ (bind next_char _ _) _ =>
      apply (bind_rel sim_read sim);
      [ exact sim_read_sim
      | apply next_char_sim; eauto using sim_read_sim
      | intros ? ? ? ?; sim_auto leaf ]
  | |- rel_res _ (bind incr_line _ _) _ =>
      apply (bind_rel sim sim);
      [ auto
      | apply incr_line_sim; eauto using sim_read_sim
      | intros ? ? ? ?; sim_auto leaf ]
  | |- rel_res _ (bind unget_char _ _) _ =>
      apply (bind_rel sim sim);
      [ auto
      | apply unget_char_sim; assumption
      | intros ? ? ? ?; sim_auto leaf ]
  | |- rel_res _ (bind get_string_bracket _ _) _ =>
      apply (bind_rel sim sim);
      [ auto
      | apply get_string_bracket_sim; eauto using sim_read_sim
      | intros ? ? ? ?; sim_auto leaf ]
  | |- rel_res _ (bind (skip_comment _) _ _) _ =>
      apply (bind_rel sim_read sim);
      [ exact sim_read_sim
      | apply skip_comment_sim; eauto using sim_read_sim
      | intros ? ? ? ?; sim_auto leaf ]
  | |- rel_res _ (ret _ _) _ => apply ret_rel; eauto using sim_read_sim
  | |- rel_res _ (raise_error _ _) _ =>
      apply raise_error_sim; eauto using sim_read_sim
  | |- rel_res _ (raise_token _ _) _ =>
      apply raise_token_sim; eauto using sim_read_sim
  | |- rel_res _ (raise_exc _ _) _ =>
      apply raise_exc_sim; eauto using sim_read_sim
  | |- _ => leaf; eauto using sim_read_sim
  end.

Lemma read_string_sim (f : nat) : forall vc a b,
  sim a b -> rel_res sim (read_string f vc a) (read_string f vc b).
Proof.
  induction f as [|f IH]; intros vc a b H; [exact I|].
  cbn [read_string]. sim_auto ltac:(apply IH).
Qed.

Lemma read_flag_sim (f : nat) : forall vc a b,
  sim a b -> rel_res sim (read_flag f vc a) (read_flag f vc b).
Proof.
  induction f as [|f IH]; intros vc a b H; [exact I|].
  cbn [read_flag]. sim_auto ltac:(apply IH).
Qed.

Lemma read_parens_sim (f : nat) : forall vc a b,
  sim a b -> rel_res sim (read_parens f vc a) (read_parens f vc b).
Proof.
  induction f as [|f IH]; intros vc a b H; [exact I|].
  cbn [read_parens]. sim_auto ltac:(apply IH).
Qed.

Lemma read_bare_sim (f : nat) : forall vc a b,
  sim a b -> rel_res sim (read_bare f vc a) (read_bare f vc b).
Proof.
  induction f as [|f IH]; intros vc a b H; [exact I|].
  cbn [read_bare]. sim_auto ltac:(apply IH).
Qed.

Lemma next_token_sim (f : nat) : forall a b,
  sim a b -> rel_res sim (_next_token f a) (_next_token f b).
Proof.
  induction f as [|f IH]; intros a b H; [exact I|].
  cbn [_next_token].
  sim_auto ltac:(first [ apply IH | apply read_string_sim | apply read_flag_sim
                       | apply read_parens_sim | apply read_bare_sim ]).
Qed.

(** ** Partial correctness rules *)

Section Hoare.

Context {A B : Type}.

Lemma hoare_bind (P : Tokenizer -> Prop) (m : M A) (k : A -> M B)
    (Q1 : Outcome A -> Tokenizer -> Prop)
    (Q : Outcome B -> Tokenizer -> Prop) :
  hoare P m Q1 ->
  (forall e a, Q1 (Raise e) a -> Q (Raise e) a) ->
  (forall v, hoare (Q1 (Ret v)) (k v) Q) ->
  hoare P (bind m k) Q.
Proof.
  intros Hm He Hk a Ha. unfold bind. specialize (Hm a Ha).
  destruct (m a) as [[[v|e] a']|]; auto.
  apply (Hk v a' Hm).
Qed.

Lemma hoare_ret (P : Tokenizer -> Prop) (v : A)
    (Q : Outcome A -> Tokenizer -> Prop) :
  (forall a, P a -> Q (Ret v) a) -> hoare P (ret v) Q.
Proof. intros H a Ha. simpl. auto. Qed.

Lemma hoare_pre (P P' : Tokenizer -> Prop) (m : M A)
    (Q : Outcome A -> Tokenizer -> Prop) :
  (forall a, P a -> P' a) -> hoare P' m Q -> hoare P m Q.
Proof. intros H Hm a Ha. apply Hm. auto. Qed.

Lemma hoare_post (P : Tokenizer -> Prop) (m : M A)
    (Q Q' : Outcome A -> Tokenizer -> Prop) :
  (forall o a, Q' o a -> Q o a) -> hoare P m Q' -> hoare P m Q.
Proof.
  intros H Hm a Ha. specialize (Hm a Ha).
  destruct (m a) as [[o a']|]; auto.
Qed.

Lemma hoare_out_of_fuel (P : Tokenizer -> Prop)
    (Q : Outcome A -> Tokenizer -> Prop) :
  hoare P out_of_fuel Q.
Proof. intros a _. exact I. Qed.

End Hoare.

(** ** The end of the input *)

Lemma next_char_eof : hoare str_stream next_char read_post.
Proof.
  intros a Ha. unfold next_char, _next_char, read_post, str_stream, at_eof in *.
  destruct a as [cur it idx cls file line br]; simpl in *.
  destruct (Z.ltb_spec (idx + 1) (len cur)) as [Hlt|Hge].
  - destruct (py_getitem cur (idx + 1)); simpl; splits; auto; try discriminate.
    intros e H [m Hm]; congruence.
  - destruct it as [|[s| |] it]; simpl in Ha; try discriminate.
    + simpl. splits; auto. discriminate.
    + destruct s as [|c r]; [|simpl; splits; auto; discriminate].
      match goal with
      | |- context [skip_empty_chunks ?s0 it] =>
          destruct (skip_empty_chunks_spec it s0 Ha)
            as (o & a' & E & Hs & Hi & _ & _ & Ho)
      end.
      rewrite E. splits; [exact Hs | | discriminate].
      intros Hn. injection Hn as ->.
      destruct Ho as (_ & Hit & Hcur). rewrite Hit, Hcur, Hi. simpl.
      split; [reflexivity | unfold len; simpl; lia].
Qed.

Lemma loop_post_token_post o a : loop_post o a -> token_post o a.
Proof.
  intros (H1 & H2 & H3). unfold token_post. splits; auto.
  intros v Hv. destruct (H2 v Hv).
Qed.

Ltac leaf :=
  unfold read_post, loop_post, token_post, str_stream, raise_error,
    raise_token, raise_exc, ret, incr_line, unget_char, get_string_bracket,
    unget, error, _error, sentinel_error,
    _tok_EOF, _tok_BRACE_OPEN, _tok_BRACE_CLOSE, _tok_BRACK_OPEN,
    _tok_BRACK_CLOSE, _tok_COLON, _tok_EQUALS, _tok_PLUS, not in *;
  simpl in *;
  repeat match goal with
         | H : _ /\ _ |- _ => destruct H
         | |- _ /\ _ => split
         | |- forall _, _ => intro
         end;
  try match goal with
      | H : forall e', Raise ?e = Raise e' -> False |- _ => destruct (H e eq_refl)
      end;
  try match goal with
      | H : Raise _ = Raise _ |- _ => injection H; clear H; intros; subst
      end;
  try assumption; try discriminate; try congruence;
  try solve [ match goal with
              | H : chunk_error _ |- _ =>
                  unfold chunk_error, sentinel_error in H;
                  destruct H as [? H]; congruence
              end ];
  try solve [eauto]; auto.

Lemma skip_comment_eof (f : nat) :
  hoare str_stream (skip_comment f)
    (fun o a => str_stream a /\ forall e, o = Raise e -> ~ chunk_error e).
Proof.
  induction f as [|f IH]; [apply hoare_out_of_fuel|].
  cbn [skip_comment].
  eapply hoare_bind; [apply next_char_eof | intros ? ? ?; leaf |].
  intros [c|].
  - destruct (c =? ch_nl)%char.
    + apply hoare_ret. intros a (H & _). split; [exact H | discriminate].
    + eapply hoare_pre; [|apply IH]. intros a (H & _). exact H.
  - apply hoare_ret. intros a (H & _). split; [exact H | discriminate].
Qed.

Ltac step_eof closing :=
  lazymatch goal with
  | |- hoare _ (if ?c then _ else _) _ => destruct c; step_eof closing
  | |- hoare _ (match ?x with Some _ => _ | None => _ end) _ =>
      destruct x; step_eof closing
  | |- hoare _ (bind next_char _) _ =>
      eapply hoare_bind;
      [ eapply hoare_pre; [|apply next_char_eof]; intros ? ?; leaf
      | intros ? ? ?; leaf
      | intros ?; step_eof closing ]
  | |- hoare _ (bind (skip_comment _) _) _ =>
      eapply hoare_bind;
      [ eapply hoare_pre; [|apply skip_comment_eof]; intros ? ?; leaf
      | intros ? ? ?; leaf
      | intros ?; step_eof closing ]
  | |- hoare _ (bind ?m _) _ =>
      eapply (hoare_bind _ m _
                (fun o a => str_stream a /\ forall e', o = Raise e' -> False));
      [ intros ? ?; leaf | intros ? ? ?; leaf | intros ?; step_eof closing ]
  | |- hoare _ (fun _ => Some _) _ => intros ? ?; leaf
  | |- hoare _ (ret _) _ => intros ? ?; leaf
  | |- hoare _ (raise_error _) _ => intros ? ?; leaf
  | |- hoare _ (raise_token _) _ => intros ? ?; leaf
  | |- hoare _ (raise_exc _) _ => intros ? ?; leaf
  | |- _ => eapply hoare_pre; [|closing]; intros ? ?; leaf
  end.

Lemma read_string_eof (f : nat) : forall vc,
  hoare str_stream (read_string f vc) loop_post.
Proof.
  induction f as [|f IH]; intros vc; [apply hoare_out_of_fuel|].
  cbn [read_string]. step_eof ltac:(apply IH).
Qed.

Lemma read_flag_eof (f : nat) : forall vc,
  hoare str_stream (read_flag f vc) loop_post.
Proof.
  induction f as [|f IH]; intros vc; [apply hoare_out_of_fuel|].
  cbn [read_flag]. step_eof ltac:(apply IH).
Qed.

Lemma read_parens_eof (f : nat) : forall vc,
  hoare str_stream (read_parens f vc) loop_post.
Proof.
  induction f as [|f IH]; intros vc; [apply hoare_out_of_fuel|].
  cbn [read_parens]. step_eof ltac:(apply IH).
Qed.

Lemma read_bare_eof (f : nat) : forall vc,
  hoare str_stream (read_bare f vc) loop_post.
Proof.
  induction f as [|f IH]; intros vc; [apply hoare_out_of_fuel|].
  cbn [read_bare]. step_eof ltac:(apply IH).
Qed.

Lemma next_token_eof (f : nat) :
  hoare str_stream (_next_token f) token_post.
Proof.
  induction f as [|f IH]; [apply hoare_out_of_fuel|].
  cbn [_next_token].
  step_eof ltac:(first
    [ apply IH
    | eapply hoare_post; [apply loop_post_token_post|];
      first [ apply read_string_eof | apply read_flag_eof
            | apply read_parens_eof | apply read_bare_eof ] ]).
Qed.

(** ** Reading a known text *)

Lemma next_char_some (a : Tokenizer) (c : ascii) (r : string) :
  wf a -> remaining a = String c r ->
  exists a1,
    _next_char a = (Ret (Some c), a1)
    /\ wf a1 /\ wf (unget a1)
    /\ remaining a1 = r /\ remaining (unget a1) = String c r
    /\ line_num a1 = line_num a /\ same_config a a1.
Proof.
  intros Hwf Hrem.
  destruct (next_char_spec a Hwf) as (o & a1 & E & Hwf1 & Hwfu & Hl & Hcfg & Ho).
  destruct o as [c'|].
  - destruct Ho as [H1 H2]. rewrite Hrem in H1. injection H1 as -> ->.
    exists a1. repeat split; try assumption; try apply Hwf1; try apply Hwfu;
      try apply Hcfg. congruence.
  - destruct Ho as [H1 _]. congruence.
Qed.

Lemma next_char_none (a : Tokenizer) :
  wf a -> remaining a = "" ->
  exists a1,
    _next_char a = (Ret None, a1)
    /\ wf a1 /\ wf (unget a1)
    /\ remaining a1 = "" /\ remaining (unget a1) = ""
    /\ line_num a1 = line_num a /\ same_config a a1.
Proof.
  intros Hwf Hrem.
  destruct (next_char_spec a Hwf) as (o & a1 & E & Hwf1 & Hwfu & Hl & Hcfg & Ho).
  destruct o as [c'|].
  - destruct Ho as [H1 _]. congruence.
  - destruct Ho as (H1 & H2 & H3).
    exists a1. repeat split; try assumption; try apply Hwf1; try apply Hwfu;
      try apply Hcfg.
Qed.

(** Read the first character of a text known to start with it. *)
Ltac read_known Hwf Hrem a1 :=
  let E := fresh "E" in
  let Hwf1 := fresh "Hwf" in
  let Hwfu := fresh "Hwfu" in
  let Hrem1 := fresh "Hrem" in
  let Hun := fresh "Hun" in
  let Hl := fresh "Hl" in
  let Hcfg := fresh "Hcfg" in
  first
    [ destruct (next_char_some _ _ _ Hwf Hrem)
        as (a1 & E & Hwf1 & Hwfu & Hrem1 & Hun & Hl & Hcfg)
    | destruct (next_char_none _ Hwf Hrem)
        as (a1 & E & Hwf1 & Hwfu & Hrem1 & Hun & Hl & Hcfg) ];
  unfold bind at 1; unfold next_char at 1; rewrite E.

(** A run of bare characters, up to a character that ends the name or to
    the end of the input, is read as one STRING. *)
Lemma read_bare_word (w : string) : forall vc a f t,
  wf a -> remaining a = w ++ t ->
  all_bare w = true -> ends_bare t = true ->
  (String.length w < f)%nat ->
  exists a',
    read_bare f vc a = Some (Ret (STRING, Some (join vc ++ w)), a')
    /\ wf a' /\ remaining a' = t
    /\ line_num a' = line_num a /\ same_config a a'.
Proof.
  induction w as [|c w IH]; intros vc a f t Hwf Hrem Hw Ht Hf;
    (destruct f as [|f]; [simpl in Hf; lia|]); cbn [read_bare].
  - simpl in Hrem. rewrite append_nil_r. destruct t as [|d t].
    + read_known Hwf Hrem a1. exists a1. unfold ret. splits; auto.
    + read_known Hwf Hrem a1. cbn [ends_bare] in Ht. rewrite Ht.
      exists (unget a1). unfold bind, unget_char, ret.
      splits; auto.
  - cbn [append all_bare] in Hrem, Hw.
    apply andb_true_iff in Hw. destruct Hw as [Hc Hw].
    apply negb_true_iff in Hc.
    read_known Hwf Hrem a1. rewrite Hc.
    destruct (IH (vc ++ [str1 c])%list a1 f t) as (a' & E' & Hwf' & Hrem' & Hl' & Hcfg');
      auto; [simpl in Hf; lia|].
    exists a'. rewrite E', join_snoc, append_assoc.
    splits; auto; [congruence | eapply same_config_trans; eauto].
Qed.

Lemma char_in_false_eqb (c d : ascii) (s : string) :
  char_in c s = false -> char_in d s = true -> (c =? d)%char = false.
Proof.
  intros Hc Hd. destruct (c =? d)%char eqn:E; [|reflexivity].
  apply Ascii.eqb_eq in E. subst d. congruence.
Qed.

Lemma next_token_bare_word (a : Tokenizer) (f : nat) (c : ascii) (w t : string) :
  wf a -> remaining a = String c (w ++ t) ->
  starts_bare c = true -> all_bare w = true -> ends_bare t = true ->
  (S (String.length w) < f)%nat ->
  exists a',
    _next_token f a = Some (Ret (STRING, Some (String c w)), a')
    /\ wf a' /\ remaining a' = t
    /\ line_num a' = line_num a /\ same_config a a'.
Proof.
  intros Hwf Hrem Hc Hw Ht Hf.
  destruct f as [|f]; [lia|]. cbn [_next_token].
  unfold starts_bare in Hc. apply andb_true_iff in Hc. destruct Hc as [Hc Hop].
  apply negb_true_iff in Hc, Hop.
  apply orb_false_iff in Hop. destruct Hop as [Hop Hsl].
  apply orb_false_iff in Hop. destruct Hop as [Hpl Heq].
  read_known Hwf Hrem a1.
  rewrite (char_in_false_eqb c "{" _ Hc eq_refl).
  rewrite (char_in_false_eqb c "}" _ Hc eq_refl).
  rewrite (char_in_false_eqb c ":" _ Hc eq_refl).
  rewrite Hpl, Heq.
  rewrite (char_in_false_eqb c "]" _ Hc eq_refl).
  rewrite (char_in_false_eqb c ch_nl _ Hc eq_refl).
  cbn [char_in str1].
  rewrite (char_in_false_eqb c " " _ Hc eq_refl).
  rewrite (char_in_false_eqb c ch_tab _ Hc eq_refl).
  cbn [orb]. rewrite Hsl.
  rewrite (char_in_false_eqb c ch_dquote _ Hc eq_refl).
  rewrite (char_in_false_eqb c "[" _ Hc eq_refl).
  rewrite (char_in_false_eqb c "(" _ Hc eq_refl).
  rewrite Hc. cbn [negb].
  destruct (read_bare_word w [str1 c] a1 f t) as (a' & E' & Hwf' & Hrem' & Hl' & Hcfg');
    auto; [lia|].
  exists a'. rewrite E'. splits; auto; [congruence | eapply same_config_trans; eauto].
Qed.

(** The body of a comment is skipped up to the newline or the end of the
    input, which is the next thing read after the push-back. *)
Lemma skip_comment_body (body : string) : forall a f t,
  wf a -> remaining a = body ++ t ->
  no_newline body = true -> ends_line t = true ->
  (String.length body < f)%nat ->
  exists a3,
    skip_comment f a = Some (Ret tt, a3)
    /\ wf (unget a3) /\ remaining (unget a3) = t
    /\ line_num a3 = line_num a /\ same_config a a3.
Proof.
  induction body as [|c body IH]; intros a f t Hwf Hrem Hb Ht Hf;
    (destruct f as [|f]; [simpl in Hf; lia|]); cbn [skip_comment].
  - simpl in Hrem. destruct t as [|d t].
    + read_known Hwf Hrem a1. exists a1. unfold ret. splits; auto.
    + read_known Hwf Hrem a1. cbn [ends_line] in Ht. rewrite Ht.
      exists a1. unfold ret. splits; auto.
  - cbn [append no_newline] in Hrem, Hb.
    apply andb_true_iff in Hb. destruct Hb as [Hc Hb].
    apply negb_true_iff in Hc.
    read_known Hwf Hrem a1. rewrite Hc.
    destruct (IH a1 f t) as (a3 & E' & Hwf' & Hrem' & Hl' & Hcfg');
      auto; [simpl in Hf; lia|].
    exists a3. rewrite E'.
    splits; auto; [congruence | eapply same_config_trans; eauto].
Qed.

Lemma next_token_comment (a : Tokenizer) (f : nat) (body t : string) :
  wf a -> remaining a = String "/" (String "/" (body ++ t)) ->
  no_newline body = true -> ends_line t = true ->
  (String.length body < f)%nat ->
  exists a',
    wf a' /\ remaining a' = t /\ line_num a' = line_num a
    /\ same_config a a'
    /\ _next_token (S f) a = _next_token f a'.
Proof.
  intros Hwf Hrem Hb Ht Hf. cbn [_next_token].
  read_known Hwf Hrem a1. cbn -[bind next_char skip_comment _next_token].
  read_known Hwf0 Hrem0 a2. cbn -[bind unget_char skip_comment _next_token].
  destruct (skip_comment_body body a2 f t) as (a3 & E3 & Hwf3 & Hrem3 & Hl3 & Hcfg3);
    auto.
  unfold bind at 1. rewrite E3. unfold bind at 1, unget_char at 1.
  exists (unget a3). splits; auto.
  - simpl. congruence.
  - eapply same_config_trans; [exact Hcfg|].
    eapply same_config_trans; [exact Hcfg0|]. exact Hcfg3.
Qed.

Lemma next_token_newline (a : Tokenizer) (f : nat) (t : string) :
  wf a -> remaining a = String ch_nl t ->
  exists a',
    _next_token (S f) a = Some (Ret (NEWLINE, Some (str1 ch_nl)), a')
    /\ wf a' /\ remaining a' = t /\ line_num a' = add_lines (line_num a) 1
    /\ same_config a a'.
Proof.
  intros Hwf Hrem. cbn [_next_token].
  read_known Hwf Hrem a1. cbn.
  eexists. split; [reflexivity|]. splits; auto. simpl. congruence.
Qed.

Lemma next_token_at_end (a : Tokenizer) (f : nat) :
  wf a -> remaining a = "" ->
  exists a',
    _next_token (S f) a = Some (Ret _tok_EOF, a')
    /\ wf a' /\ remaining a' = "" /\ line_num a' = line_num a
    /\ same_config a a'.
Proof.
  intros Hwf Hrem. cbn [_next_token].
  read_known Hwf Hrem a1.
  eexists. split; [reflexivity|]. splits; auto.
Qed.

(** ** Repeated calls *)

Lemma calls_sim (f n : nat) : forall a b,
  sim a b ->
  match calls f n a, calls f n b with
  | None, None => True
  | Some (os, a'), Some (os', b') => os = os' /\ sim a' b'
  | _, _ => False
  end.
Proof.
  induction n as [|n IH]; intros a b H; [simpl; auto|].
  cbn [calls]. pose proof (next_token_sim f a b H) as Ht.
  unfold rel_res in Ht.
  destruct (_next_token f a) as [[oa a1]|], (_next_token f b) as [[ob b1]|];
    try contradiction; auto.
  destruct Ht as [-> H1]. specialize (IH a1 b1 H1).
  destruct (calls f n a1) as [[osa a2]|], (calls f n b1) as [[osb b2]|];
    try contradiction; auto.
  destruct IH as [-> H2]. auto.
Qed.

Lemma calls_total (f n : nat) : forall a,
  wf a -> (String.length (remaining a) < f)%nat ->
  exists os a',
    calls f n a = Some (os, a') /\ wf a'
    /\ (String.length (remaining a') <= String.length (remaining a))%nat.
Proof.
  induction n as [|n IH]; intros a Hwf Hf.
  - exists [], a. simpl. auto.
  - destruct (next_token_frame f a Hwf Hf) as (o & a1 & p & E & Hc & _).
    destruct Hc as (Hwf1 & _ & Hrem & _).
    assert (Hle : (String.length (remaining a1) <= String.length (remaining a))%nat).
    { rewrite Hrem, length_append. lia. }
    destruct (IH a1 Hwf1) as (os & a' & E' & Hwf' & Hle'); [lia|].
    exists (o :: os), a'. cbn [calls]. rewrite E, E'. splits; auto. lia.
Qed.

Lemma map_chunk_text_PyStr (chunks : list string) :
  map chunk_text (map PyStr chunks) = chunks.
Proof. induction chunks; simpl; congruence. Qed.

Lemma forallb_is_str_PyStr (chunks : list string) :
  forallb is_str (map PyStr chunks) = true.
Proof. induction chunks; simpl; auto. Qed.

(** The two ways of giving a text to the constructor build tokenizers that
    differ only in the chunking. *)
Lemma init_sim (chunks : list string) (fname : option string)
    (error : option PyClass) (bracket : bool) :
  match __init__ (DataIter (map PyStr chunks) None) fname error bracket,
        __init__ (DataStr (join chunks)) fname error bracket with
  | Ret a, Ret b => sim a b
  | Raise e, Raise e' => e = e'
  | _, _ => False
  end.
Proof.
  assert (H : forall cls file,
    sim {| cur_chunk := ""; chunk_iter := map PyStr chunks; char_index := -1;
           error_type := cls; filename := file; line_num := 1;
           string_bracket := bracket |}
        {| cur_chunk := join chunks; chunk_iter := []; char_index := -1;
           error_type := cls; filename := file; line_num := 1;
           string_bracket := bracket |}).
  { intros cls file. unfold sim, wf, remaining. simpl.
    rewrite map_chunk_text_PyStr, forallb_is_str_PyStr, append_nil_r.
    splits; auto; lia. }
  unfold __init__.
  destruct error as [cls|]; [destruct (cls_is_syntax_error cls)|];
    try reflexivity; destruct fname as [[|c fn]|]; apply H.
Qed.

Lemma init_of_string (text : string) (bracket : bool) :
  __init__ (DataStr text) None None bracket = Ret (of_string text bracket).
Proof. reflexivity. Qed.

Lemma wf_of_string (text : string) (bracket : bool) :
  wf (of_string text bracket).
Proof. unfold wf. simpl. split; [lia | reflexivity]. Qed.

(** ** After the end of the input *)

Lemma at_eof_next_token (a : Tokenizer) (f : nat) :
  at_eof a ->
  _next_token (S f) a
  = Some (Ret _tok_EOF, set_char_index a (char_index a + 1)).
Proof.
  intros [Hit Hlen]. cbn [_next_token]. unfold bind, next_char, _next_char.
  simpl. destruct (Z.ltb_spec (char_index a + 1) (len (cur_chunk a))); [lia|].
  rewrite Hit. reflexivity.
Qed.

Lemma calls_at_eof (f n : nat) : forall a,
  at_eof a ->
  exists a',
    calls (S f) n a = Some (repeat (Ret _tok_EOF) n, a')
    /\ at_eof a' /\ line_num a' = line_num a /\ filename a' = filename a.
Proof.
  induction n as [|n IH]; intros a Ha.
  - exists a. simpl. auto.
  - cbn [calls]. rewrite (at_eof_next_token a f Ha).
    destruct (IH (set_char_index a (char_index a + 1))) as (a' & E & Ha' & Hl & Hf).
    { destruct Ha as [Hit Hlen]. split; simpl; [exact Hit | lia]. }
    exists a'. rewrite E. simpl in *. auto.
Qed.

(** ** The exceptions of the scanner *)

Lemma skip_empty_chunks_error (it : list Chunk) : forall self,
  match skip_empty_chunks self it with
  | (o, self') =>
      char_index self' = char_index self
      /\ same_config self self'
      /\ forall e, o = Raise e -> chunk_error e
  end.
Proof.
  induction it as [|ch it IH]; intros self; [|destruct ch as [[|c r]| |]];
    simpl; try apply IH;
    (splits; [reflexivity | unfold same_config; simpl; auto
             | intros e H; try discriminate]);
    injection H as <-; eexists; reflexivity.
Qed.

Lemma next_char_error (a0 : Tokenizer) :
  hoare (cursor_from a0 (-1)) next_char (error_post a0 0).
Proof.
  intros a [Hidx Hcfg]. unfold next_char, _next_char, error_post, cursor_from.
  destruct a as [cur it idx cls file line br]; simpl in *.
  destruct (Z.ltb_spec (idx + 1) (len cur)) as [Hlt|Hge].
  - unfold py_getitem. destruct (Z.ltb_spec (idx + 1) 0) as [?|_]; [lia|].
    destruct (get_in_range cur (Z.to_nat (idx + 1))) as [c Hc];
      [unfold len in Hlt; lia|].
    rewrite Hc. simpl. splits; auto; [lia | discriminate].
  - destruct it as [|[[|c r]| |] it]; simpl;
      try (splits; auto; [lia | intros e H; try discriminate]).
    + match goal with
      | |- context [skip_empty_chunks ?s0 it] =>
          pose proof (skip_empty_chunks_error it s0) as Hs;
          destruct (skip_empty_chunks s0 it) as [o a']
      end.
      destruct Hs as (Hi & Hc & He). simpl in Hi.
      splits; [lia | eapply same_config_trans; [exact Hcfg | exact Hc] |].
      intros e H. right. left. apply He. exact H.
    + injection H as <-. right. left. eexists. reflexivity.
Qed.

Ltac error_leaf :=
  unfold error_post, cursor_from, built_by_error_type, raise_error,
    raise_token, raise_exc, ret, incr_line, unget_char, get_string_bracket,
    unget, error, _error, same_config in *;
  intros; simpl in *;
  repeat match goal with
         | H : _ /\ _ |- _ => destruct H
         end;
  try match goal with
      | H : forall e', Raise ?e <> Raise e' |- _ => destruct (H e eq_refl)
      end;
  splits; try lia; try assumption; try discriminate;
  try (intros ? Heq; first [ discriminate Heq
                           | injection Heq as <-; left; eexists; f_equal; congruence
                           | injection Heq as <-; solve [eauto]
                           | injection Heq as <-; right; right; reflexivity
                           | auto ]).

Lemma skip_comment_error (a0 : Tokenizer) (f : nat) :
  hoare (cursor_from a0 (-1)) (skip_comment f) (error_post a0 0).
Proof.
  induction f as [|f IH]; [apply hoare_out_of_fuel|].
  cbn [skip_comment].
  eapply hoare_bind; [apply next_char_error | error_leaf |].
  intros [c|].
  - destruct (c =? ch_nl)%char.
    + apply hoare_ret. error_leaf.
    + eapply hoare_pre; [|apply IH]. error_leaf.
  - apply hoare_ret. error_leaf.
Qed.

Ltac step_error a0 closing :=
  lazymatch goal with
  | |- hoare _ (if ?c then _ else _) _ => destruct c; step_error a0 closing
  | |- hoare _ (match ?x with Some _ => _ | None => _ end) _ =>
      destruct x; step_error a0 closing
  | |- hoare _ (bind next_char _) _ =>
      eapply hoare_bind;
      [ eapply hoare_pre; [|apply (next_char_error a0)]; error_leaf
      | error_leaf
      | intros ?; step_error a0 closing ]
  | |- hoare _ (bind (skip_comment _) _) _ =>
      eapply hoare_bind;
      [ eapply hoare_pre; [|apply (skip_comment_error a0)]; error_leaf
      | error_leaf
      | intros ?; step_error a0 closing ]
  | |- hoare _ (bind unget_char _) _ =>
      eapply (hoare_bind _ unget_char _
                (fun o a => cursor_from a0 (-1) a /\ forall e', o <> Raise e'));
      [ intros ? ?; error_leaf | error_leaf | intros ?; step_error a0 closing ]
  | |- hoare _ (bind ?m _) _ =>
      eapply (hoare_bind _ m _
                (fun o a => cursor_from a0 0 a /\ forall e', o <> Raise e'));
      [ intros ? ?; error_leaf | error_leaf | intros ?; step_error a0 closing ]
  | |- hoare _ (ret _) _ => intros ? ?; error_leaf
  | |- hoare _ (raise_error _) _ => intros ? ?; error_leaf
  | |- hoare _ (raise_token _) _ => intros ? ?; error_leaf
  | |- hoare _ (raise_exc _) _ => intros ? ?; error_leaf
  | |- _ => eapply hoare_pre; [|closing]; error_leaf
  end.

Lemma read_string_error (a0 : Tokenizer) (f : nat) : forall vc,
  hoare (cursor_from a0 (-1)) (read_string f vc) (error_post a0 (-1)).
Proof.
  induction f as [|f IH]; intros vc; [apply hoare_out_of_fuel|].
  cbn [read_string]. step_error a0 ltac:(apply IH).
Qed.

Lemma read_flag_error (a0 : Tokenizer) (f : nat) : forall vc,
  hoare (cursor_from a0 (-1)) (read_flag f vc) (error_post a0 (-1)).
Proof.
  induction f as [|f IH]; intros vc; [apply hoare_out_of_fuel|].
  cbn [read_flag]. step_error a0 ltac:(apply IH).
Qed.

Lemma read_parens_error (a0 : Tokenizer) (f : nat) : forall vc,
  hoare (cursor_from a0 (-1)) (read_parens f vc) (error_post a0 (-1)).
Proof.
  induction f as [|f IH]; intros vc; [apply hoare_out_of_fuel|].
  cbn [read_parens]. step_error a0 ltac:(apply IH).
Qed.

Lemma read_bare_error (a0 : Tokenizer) (f : nat) : forall vc,
  hoare (cursor_from a0 (-1)) (read_bare f vc) (error_post a0 (-1)).
Proof.
  induction f as [|f IH]; intros vc; [apply hoare_out_of_fuel|].
  cbn [read_bare]. step_error a0 ltac:(apply IH).
Qed.

Lemma next_token_error (a0 : Tokenizer) (f : nat) :
  hoare (cursor_from a0 (-1)) (_next_token f) (error_post a0 (-1)).
Proof.
  induction f as [|f IH]; [apply hoare_out_of_fuel|].
  cbn [_next_token].
  step_error a0 ltac:(first
    [ apply IH | apply read_string_error | apply read_flag_error
    | apply read_parens_error | apply read_bare_error ]).
Qed.

(** ** [expect] *)

Lemma Token_eqb_eq (a b : Token) : Token_eqb a b = true <-> a = b.
Proof. destruct a, b; simpl; split; intros H; try reflexivity; discriminate. Qed.

Lemma Token_eqb_neq (a b : Token) : Token_eqb a b = false <-> a <> b.
Proof.
  destruct a, b; simpl; split; intros H; try reflexivity; try discriminate;
    try (intros; discriminate); exfalso; apply H; reflexivity.
Qed.









(** The token the loop hands back is the one it was given, or the result
    of the last call it made. *)
Lemma skip_newlines_last (f : nat) (skip : bool) (n : nat) :
  forall tok a tok' a',
    skip_newlines f n skip tok a = Some (Ret tok', a') ->
    (tok' = tok /\ a' = a)
    \/ exists a_j, _next_token f a_j = Some (Ret tok', a').
Proof.
  induction n as [|n IH]; intros tok a tok' a' H; cbn [skip_newlines] in H;
    destruct (skip && Token_eqb (fst tok) NEWLINE);
    try discriminate; try (injection H as <- <-; left; split; reflexivity).
  unfold bind at 1 in H.
  destruct (_next_token f a) as [[[tok1|e] a1]|] eqn:E; try discriminate.
  destruct (IH tok1 a1 tok' a' H) as [[-> ->]|Hlast]; [|right; exact Hlast].
  right. exists a. exact E.
Qed.

(** ** Quoted strings *)

Lemma join_app (l1 l2 : list string) : join (l1 ++ l2) = join l1 ++ join l2.
Proof.
  induction l1 as [|s l1 IH]; [reflexivity|].
  change ((s :: l1) ++ l2)%list with (s :: (l1 ++ l2))%list.
  rewrite !join_cons, IH, append_assoc. reflexivity.
Qed.

Lemma escape_decoded_eq (e : ascii) (vc : list string) (f : nat) :
  (if (e =? "n")%char then read_string f (vc ++ [str1 ch_nl])
   else if (e =? "t")%char then read_string f (vc ++ [str1 ch_tab])
   else if (e =? ch_nl)%char then read_string f vc
   else if char_in e (String ch_dquote (String ch_bslash "/")) then
     read_string f (vc ++ [str1 e])
   else read_string f (vc ++ [String ch_bslash (str1 e)]))%list
  = read_string f (vc ++ escape_decoded e)%list.
Proof.
  unfold escape_decoded. cbn [char_in].
  destruct (e =? "n")%char; [reflexivity|].
  destruct (e =? "t")%char; [reflexivity|].
  destruct (e =? ch_nl)%char; [rewrite app_nil_r; reflexivity|].
  destruct (e =? ch_dquote)%char; [reflexivity|].
  destruct (e =? ch_bslash)%char; [reflexivity|].
  destruct (e =? "/")%char; reflexivity.
Qed.

(** One escape sequence: two characters are read, the line counter stays,
    and the loop goes on with what the sequence stands for. *)
Lemma read_string_escape (a : Tokenizer) (e : ascii) (t : string) :
  wf a -> remaining a = String ch_bslash (String e t) ->
  exists a2,
    wf a2 /\ remaining a2 = t /\ line_num a2 = line_num a /\ same_config a a2
    /\ forall f vc,
         read_string (S f) vc a = read_string f (vc ++ escape_decoded e)%list a2.
Proof.
  intros Hwf Hrem.
  destruct (next_char_some _ _ _ Hwf Hrem)
    as (a1 & E1 & Hwf1 & _ & Hrem1 & _ & Hl1 & Hcfg1).
  destruct (next_char_some _ _ _ Hwf1 Hrem1)
    as (a2 & E2 & Hwf2 & _ & Hrem2 & _ & Hl2 & Hcfg2).
  exists a2. splits; auto; [congruence | eapply same_config_trans; eauto |].
  intros f vc. cbn [read_string].
  unfold bind at 1. unfold next_char at 1. rewrite E1.
  cbn -[bind next_char read_string char_in].
  unfold bind at 1. unfold next_char at 1. rewrite E2.
  apply (f_equal (fun m => m a2)). apply escape_decoded_eq.
Qed.

(** One character that is neither the quote nor the backslash: it is added
    to the value, and counted if it is a newline. *)
Lemma read_string_char (a : Tokenizer) (c : ascii) (t : string) :
  wf a -> remaining a = String c t ->
  (c =? ch_dquote)%char = false -> (c =? ch_bslash)%char = false ->
  exists a1,
    wf a1 /\ remaining a1 = t
    /\ line_num a1 = add_lines (line_num a) (if (c =? ch_nl)%char then 1 else 0)
    /\ same_config a a1
    /\ forall f vc,
         read_string (S f) vc a = read_string f (vc ++ [str1 c])%list a1.
Proof.
  intros Hwf Hrem Hdq Hbs.
  destruct (next_char_some _ _ _ Hwf Hrem)
    as (a1 & E1 & Hwf1 & _ & Hrem1 & _ & Hl1 & Hcfg1).
  destruct (c =? ch_nl)%char eqn:Ec.
  - exists (set_line_num a1 (wrap_int (line_num a1 + 1))).
    splits; auto; [simpl; congruence|].
    intros f vc. cbn [read_string].
    unfold bind at 1. unfold next_char at 1. rewrite E1, Hdq, Ec.
    reflexivity.
  - exists a1. splits; auto.
    intros f vc. cbn [read_string].
    unfold bind at 1. unfold next_char at 1. rewrite E1, Hdq, Ec, Hbs.
    reflexivity.
Qed.

Lemma count_nl_escape (e : ascii) (s : string) :
  count_nl (String ch_bslash (String e s))
  = ((if (e =? ch_nl)%char then 1 else 0) + count_nl s)%nat.
Proof. reflexivity. Qed.

Lemma continuations_escape (e : ascii) (s : string) :
  continuations (String ch_bslash (String e s))
  = ((if (e =? ch_nl)%char then 1 else 0) + continuations s)%nat.
Proof. reflexivity. Qed.

Lemma decoded_escape (e : ascii) (s : string) :
  decoded (String ch_bslash (String e s)) = join (escape_decoded e) ++ decoded s.
Proof. reflexivity. Qed.

(** The text between the quotes: the loop goes on after it with its decoded
    value added, and every newline of it counted but the line
    continuations.  [g] is the fuel the escape sequences have spared. *)
Lemma read_string_decoded : forall (n : nat) (body : string),
  (String.length body <= n)%nat ->
  forall vc a t,
    wf a -> remaining a = body ++ t -> string_body body = true ->
    exists a1 vc1 g,
      wf a1 /\ remaining a1 = t
      /\ line_num a1
         = add_lines (line_num a) (count_nl body - continuations body)
      /\ same_config a a1
      /\ join vc1 = join vc ++ decoded body
      /\ forall f,
           read_string (String.length body + f) vc a
           = read_string (g + f) vc1 a1.
Proof.
  assert (Hnil : forall vc a t,
    wf a -> remaining a = "" ++ t ->
    exists a1 vc1 g,
      wf a1 /\ remaining a1 = t
      /\ line_num a1 = add_lines (line_num a) (count_nl "" - continuations "")
      /\ same_config a a1
      /\ join vc1 = join vc ++ decoded ""
      /\ forall f,
           read_string (String.length "" + f) vc a
           = read_string (g + f) vc1 a1).
  { intros vc a t Hwf Hrem. exists a, vc, O. simpl.
    rewrite append_nil_r. splits; auto. apply same_config_refl. }
  induction n as [|n IH]; intros body Hn vc a t Hwf Hrem Hb.
  - destruct body; [apply Hnil; assumption | simpl in Hn; lia].
  - destruct body as [|c body]; [apply Hnil; assumption|].
    cbn [string_body] in Hb. cbn [append] in Hrem. simpl in Hn.
    destruct (c =? ch_bslash)%char eqn:Eb.
    + apply ascii_eqb_true in Eb. subst c.
      destruct body as [|e body]; [discriminate|].
      cbn [append] in Hrem. simpl in Hn.
      destruct (read_string_escape a e (body ++ t) Hwf Hrem)
        as (a2 & Hwf2 & Hrem2 & Hl2 & Hcfg2 & E2).
      destruct (IH body ltac:(lia) (vc ++ escape_decoded e)%list a2 t
                  Hwf2 Hrem2 Hb)
        as (a1 & vc1 & g & Hwf1 & Hrem1 & Hl1 & Hcfg1 & Hj & E1).
      exists a1, vc1, (S g). splits; auto.
      * rewrite Hl1, Hl2, count_nl_escape, continuations_escape.
        f_equal. destruct (e =? ch_nl)%char; lia.
      * eapply same_config_trans; eauto.
      * rewrite Hj, join_app, append_assoc, decoded_escape. reflexivity.
      * intros f. cbn [String.length Nat.add]. rewrite E2.
        replace (S (String.length body + f))
          with (String.length body + S f)%nat by lia.
        rewrite E1.
        replace (g + S f)%nat with (S g + f)%nat by lia. reflexivity.
    + apply andb_true_iff in Hb. destruct Hb as [Hdq Hb].
      apply negb_true_iff in Hdq.
      destruct (read_string_char a c (body ++ t) Hwf Hrem Hdq Eb)
        as (a2 & Hwf2 & Hrem2 & Hl2 & Hcfg2 & E2).
      destruct (IH body ltac:(lia) (vc ++ [str1 c])%list a2 t Hwf2 Hrem2 Hb)
        as (a1 & vc1 & g & Hwf1 & Hrem1 & Hl1 & Hcfg1 & Hj & E1).
      exists a1, vc1, g. splits; auto.
      * rewrite Hl1, Hl2, <- add_lines_add. f_equal.
        cbn [count_nl continuations]. rewrite Hdq, Eb.
        pose proof (continuations_count body).
        destruct (c =? ch_nl)%char; lia.
      * eapply same_config_trans; eauto.
      * rewrite Hj, join_snoc, append_assoc. cbn [decoded]. rewrite Eb.
        reflexivity.
      * intros f. cbn [String.length Nat.add]. rewrite E2. apply E1.
Qed.

(** A quoted string: the token is STRING with the decoded value. *)
Lemma next_token_quoted (a : Tokenizer) (f : nat) (body t : string) :
  wf a -> remaining a = String ch_dquote (body ++ String ch_dquote t) ->
  string_body body = true -> (S (String.length body) < f)%nat ->
  exists a',
    _next_token f a = Some (Ret (STRING, Some (decoded body)), a')
    /\ wf a' /\ remaining a' = t
    /\ line_num a'
       = add_lines (line_num a) (count_nl body - continuations body)
    /\ same_config a a'.
Proof.
  intros Hwf Hrem Hb Hf.
  destruct (next_char_some _ _ _ Hwf Hrem)
    as (a1 & E1 & Hwf1 & _ & Hrem1 & _ & Hl1 & Hcfg1).
  destruct (read_string_decoded (String.length body) body (le_n _) [] a1
              (String ch_dquote t) Hwf1 Hrem1 Hb)
    as (a2 & vc1 & g & Hwf2 & Hrem2 & Hl2 & Hcfg2 & Hj & E2).
  destruct (next_char_some _ _ _ Hwf2 Hrem2)
    as (a3 & E3 & Hwf3 & _ & Hrem3 & _ & Hl3 & Hcfg3).
  exists a3. splits; auto.
  - apply (next_token_fuel (S (String.length body + 1)) f); [lia|].
    cbn [_next_token]. unfold bind at 1. unfold next_char at 1. rewrite E1.
    cbn -[read_string]. rewrite E2, Nat.add_1_r. cbn [read_string].
    unfold bind at 1. unfold next_char at 1. rewrite E3.
    cbn -[join]. unfold ret. rewrite Hj. reflexivity.
  - congruence.
  - eapply same_config_trans; [exact Hcfg1|].
    eapply same_config_trans; [exact Hcfg2 | exact Hcfg3].
Qed.

(** The input ends between the quotes.  The sentinel passes the test at the
    head of the loop and fails at the [append]. *)
Lemma next_token_quoted_end (a : Tokenizer) (f : nat) (body : string) :
  wf a -> remaining a = String ch_dquote body ->
  string_body body = true -> (S (String.length body) < f)%nat ->
  exists a',
    _next_token f a = Some (Raise sentinel_error, a')
    /\ line_num a'
       = add_lines (line_num a) (count_nl body - continuations body).
Proof.
  intros Hwf Hrem Hb Hf.
  destruct (next_char_some _ _ _ Hwf Hrem)
    as (a1 & E1 & Hwf1 & _ & Hrem1 & _ & Hl1 & Hcfg1).
  destruct (read_string_decoded (String.length body) body (le_n _) [] a1 ""
              Hwf1 ltac:(rewrite append_nil_r; exact Hrem1) Hb)
    as (a2 & vc1 & g & Hwf2 & Hrem2 & Hl2 & Hcfg2 & Hj & E2).
  destruct (next_char_none _ Hwf2 Hrem2)
    as (a3 & E3 & Hwf3 & _ & Hrem3 & _ & Hl3 & Hcfg3).
  exists a3. split; [|congruence].
  apply (next_token_fuel (S (String.length body + 1)) f); [lia|].
  cbn [_next_token]. unfold bind at 1. unfold next_char at 1. rewrite E1.
  cbn -[read_string]. rewrite E2, Nat.add_1_r. cbn [read_string].
  unfold bind at 1. unfold next_char at 1. rewrite E3. reflexivity.
Qed.

(** The input ends right after a backslash between the quotes. *)
Lemma next_token_quoted_bslash_end (a : Tokenizer) (f : nat) (body : string) :
  wf a -> remaining a = String ch_dquote (body ++ str1 ch_bslash) ->
  string_body body = true -> (S (S (String.length body)) < f)%nat ->
  exists a',
    _next_token f a
    = Some (Raise (ErrorInstance (error_type a) "Unterminated string!"
                     (filename a)
                     (add_lines (line_num a)
                        (count_nl body - continuations body))), a').
Proof.
  intros Hwf Hrem Hb Hf.
  destruct (next_char_some _ _ _ Hwf Hrem)
    as (a1 & E1 & Hwf1 & _ & Hrem1 & _ & Hl1 & Hcfg1).
  destruct (read_string_decoded (String.length body) body (le_n _) [] a1
              (str1 ch_bslash) Hwf1 Hrem1 Hb)
    as (a2 & vc1 & g & Hwf2 & Hrem2 & Hl2 & Hcfg2 & Hj & E2).
  destruct (next_char_some _ _ _ Hwf2 Hrem2)
    as (a3 & E3 & Hwf3 & _ & Hrem3 & _ & Hl3 & Hcfg3).
  destruct (next_char_none _ Hwf3 Hrem3)
    as (a4 & E4 & Hwf4 & _ & Hrem4 & _ & Hl4 & Hcfg4).
  exists a4.
  apply (next_token_fuel (S (String.length body + 1)) f); [lia|].
  cbn [_next_token]. unfold bind at 1. unfold next_char at 1. rewrite E1.
  cbn -[read_string]. rewrite E2, Nat.add_1_r. cbn [read_string].
  unfold bind at 1. unfold next_char at 1. rewrite E3.
  cbn -[bind next_char read_string char_in].
  unfold bind at 1. unfold next_char at 1. rewrite E4.
  unfold raise_error, _error.
  assert (Hcfg : same_config a a4).
  { eapply same_config_trans; [exact Hcfg1|].
    eapply same_config_trans; [exact Hcfg2|].
    eapply same_config_trans; [exact Hcfg3 | exact Hcfg4]. }
  destruct Hcfg as (Hfile & Hcls & _).
  rewrite <- Hfile, <- Hcls.
  replace (line_num a4)
    with (add_lines (line_num a) (count_nl body - continuations body))
    by congruence.
  reflexivity.
Qed.

(** * Main results *)

(** C10 — [=] and [+] do not end a bare name: they are not in
    [BARE_DISALLOWED], whose members are exactly the double quote, the
    single quote, [{ } < > ( ) ; : [ ]], newline, tab and space.  A name
    that has begun absorbs every other character, up to one of these
    (which is pushed back) or the end of the input, and comes out as one
    STRING; at the start of a token [=] and [+] are the EQUALS and PLUS
    tokens.  So [a=b] is the single token STRING [a=b]. *)
Theorem bare_word_boundaries :
  (forall c : ascii,
      char_in c BARE_DISALLOWED = true <->
      In c [ch_dquote; ch_squote; "{"; "}"; "<"; ">"; "("; ")"; ";"; ":";
            "["; "]"; ch_nl; ch_tab; " "]%char)
  /\ all_bare "=+" = true
  /\ (forall (a : Tokenizer) (f : nat) (c : ascii) (w t : string),
        wf a -> remaining a = String c (w ++ t) ->
        starts_bare c = true -> all_bare w = true -> ends_bare t = true ->
        (S (String.length w) < f)%nat ->
        exists a',
          _next_token f a = Some (Ret (STRING, Some (String c w)), a')
          /\ remaining a' = t /\ line_num a' = line_num a)
  /\ (forall (a : Tokenizer) (f : nat) (t : string),
        wf a ->
        (remaining a = String "=" t ->
         exists a', _next_token (S f) a = Some (Ret (EQUALS, Some "="), a')
                    /\ remaining a' = t)
        /\ (remaining a = String "+" t ->
            exists a', _next_token (S f) a = Some (Ret (PLUS, Some "+"), a')
                       /\ remaining a' = t))
  /\ option_map fst (tokenize 8 8 (of_string "a=b" false))
     = Some [Ret (STRING, Some "a=b"); Ret (EOF, None)].
Proof.
  split; [|split; [reflexivity|split; [|split; [|reflexivity]]]].
  - intros c. unfold BARE_DISALLOWED. cbn [char_in append In].
    rewrite !orb_true_iff, !Ascii.eqb_eq.
    intuition (try discriminate; auto).
  - intros a f c w t Hwf Hrem Hc Hw Ht Hf.
    destruct (next_token_bare_word a f c w t Hwf Hrem Hc Hw Ht Hf)
      as (a' & E & _ & Hrem' & Hl & _).
    exists a'. auto.
  - intros a f t Hwf. split; intros Hrem; cbn [_next_token];
      read_known Hwf Hrem a1; exists a1; split; auto.
Qed.

Lemma bare_word_boundaries_witness :
  exists a',
    _next_token 5 (of_string "a=b c" false) = Some (Ret (STRING, Some "a=b"), a')
    /\ remaining a' = " c" /\ line_num a' = 1.
Proof.
  refine (proj1 (proj2 (proj2 bare_word_boundaries))
            (of_string "a=b c" false) 5%nat "a"%char "=b" " c"
            _ eq_refl eq_refl eq_refl eq_refl _).
  - unfold wf. simpl. split; [lia | reflexivity].
  - simpl. lia.
Defined.

(** C8 — A [/] at the start of a token must be followed by another [/]:
    otherwise (another character, or the end of the input) the call raises
    "Single slash found!".  After [//] everything up to the next newline or
    the end of the input is read without producing a token, and the character
    that ended the comment is pushed back and read again, so that the call
    goes on as if the text began there: a newline gives NEWLINE (and one
    increment of the line counter), the end of the input gives EOF.  The
    text [// a comment], a newline and [foo] gives
    NEWLINE, STRING [foo], EOF. *)
Theorem comment_handling :
  (forall (a : Tokenizer) (f : nat) (t : string),
      wf a -> remaining a = String "/" t -> no_slash_ahead t = true ->
      exists a',
        _next_token (S f) a
        = Some (Raise (ErrorInstance (error_type a) "Single slash found!"
                         (filename a) (line_num a)), a'))
  /\ (forall (a : Tokenizer) (f : nat) (body t : string),
        wf a -> remaining a = String "/" (String "/" (body ++ t)) ->
        no_newline body = true -> ends_line t = true ->
        (String.length body < f)%nat ->
        (exists a',
            remaining a' = t /\ line_num a' = line_num a
            /\ _next_token (S f) a = _next_token f a')
        /\ (forall t', t = String ch_nl t' ->
              exists a',
                _next_token (S f) a
                = Some (Ret (NEWLINE, Some (str1 ch_nl)), a')
                /\ remaining a' = t' /\ line_num a' = add_lines (line_num a) 1)
        /\ (t = "" ->
            exists a',
              _next_token (S f) a = Some (Ret _tok_EOF, a')
              /\ remaining a' = "" /\ line_num a' = line_num a))
  /\ option_map fst
       (tokenize 20 8 (of_string ("// a comment" ++ String ch_nl "foo") false))
     = Some [Ret (NEWLINE, Some (str1 ch_nl)); Ret (STRING, Some "foo");
             Ret (EOF, None)].
Proof.
  split; [|split; [|reflexivity]].
  - intros a f t Hwf Hrem Ht. cbn [_next_token].
    read_known Hwf Hrem a1. cbn -[bind next_char skip_comment _next_token].
    destruct Hcfg as (Hfile & Hcls & _).
    destruct t as [|d t].
    + read_known Hwf0 Hrem0 a2. unfold raise_error, _error.
      destruct Hcfg as (Hfile2 & Hcls2 & _).
      exists a2.
      replace (error_type a2) with (error_type a) by congruence.
      replace (filename a2) with (filename a) by congruence.
      replace (line_num a2) with (line_num a) by congruence.
      reflexivity.
    + read_known Hwf0 Hrem0 a2. cbn [no_slash_ahead] in Ht. rewrite Ht.
      unfold raise_error, _error.
      destruct Hcfg as (Hfile2 & Hcls2 & _).
      exists a2.
      replace (error_type a2) with (error_type a) by congruence.
      replace (filename a2) with (filename a) by congruence.
      replace (line_num a2) with (line_num a) by congruence.
      reflexivity.
  - intros a f body t Hwf Hrem Hb Ht Hf.
    destruct (next_token_comment a f body t Hwf Hrem Hb Ht Hf)
      as (a1 & Hwf1 & Hrem1 & Hl1 & Hcfg1 & E).
    split; [exists a1; auto|].
    destruct f as [|f]; [lia|].
    split.
    + intros t' ->.
      destruct (next_token_newline a1 f t' Hwf1 Hrem1) as (a' & E' & _ & Hr & Hl & _).
      exists a'. rewrite E, E'. splits; auto. congruence.
    + intros ->.
      destruct (next_token_at_end a1 f Hwf1 Hrem1) as (a' & E' & _ & Hr & Hl & _).
      exists a'. rewrite E, E'. splits; auto. lia.
Qed.

Lemma comment_handling_witness :
  exists a',
    _next_token 4 (of_string ("//ab" ++ String ch_nl "c") false)
    = Some (Ret (NEWLINE, Some (str1 ch_nl)), a')
    /\ remaining a' = "c" /\ line_num a' = add_lines 1 1.
Proof.
  refine (proj1 (proj2 (proj1 (proj2 comment_handling)
            (of_string ("//ab" ++ String ch_nl "c") false) 3%nat "ab"
            (String ch_nl "c") _ eq_refl eq_refl eq_refl _)) "c" eq_refl).
  - unfold wf. simpl. split; [lia | reflexivity].
  - simpl. lia.
Defined.

(** C9 — With [string_bracket] set, [[!fizz]] gives PROP_FLAG [!fizz] and
    EOF; without it, BRACK_OPEN, STRING [!fizz], BRACK_CLOSE and EOF.  A []]
    at the start of a token gives BRACK_CLOSE whatever the flag is. *)
Theorem bracket_modes :
  option_map fst (tokenize 10 8 (of_string "[!fizz]" true))
  = Some [Ret (PROP_FLAG, Some "!fizz"); Ret (EOF, None)]
  /\ option_map fst (tokenize 10 8 (of_string "[!fizz]" false))
     = Some [Ret (BRACK_OPEN, Some "["); Ret (STRING, Some "!fizz");
             Ret (BRACK_CLOSE, Some "]"); Ret (EOF, None)]
  /\ (forall (a : Tokenizer) (f : nat) (t : string),
        wf a -> remaining a = String "]" t ->
        exists a',
          _next_token (S f) a = Some (Ret (BRACK_CLOSE, Some "]"), a')
          /\ remaining a' = t /\ string_bracket a' = string_bracket a).
Proof.
  split; [reflexivity|]. split; [reflexivity|].
  intros a f t Hwf Hrem. cbn [_next_token].
  read_known Hwf Hrem a1. exists a1. splits; auto.
  symmetry. apply Hcfg.
Qed.

Lemma bracket_modes_witness :
  exists a',
    _next_token 1 (of_string "]x" true) = Some (Ret (BRACK_CLOSE, Some "]"), a')
    /\ remaining a' = "x" /\ string_bracket a' = true.
Proof.
  refine (proj2 (proj2 bracket_modes) (of_string "]x" true) 0%nat "x" _ eq_refl).
  unfold wf. simpl. split; [lia | reflexivity].
Defined.

(** C3 — Escapes inside a quoted string.  For a text that starts with a
    double quote, a [body] that can stand between quotes, and the closing
    quote, [_next_token] returns STRING with the decoded value of [body]
    ([decoded]) and has read the text up to the closing quote.  In the
    decoded value a backslash followed by [n] is a newline, by [t] a tab, by
    a real newline nothing, by a double quote, a backslash or a slash that
    character, and by anything else the backslash and the character
    ([escape_decoded]); every other character is itself.  The line counter
    has been incremented once for each newline of [body] that is not the
    escape character of a backslash.  While the loop runs, an escape
    sequence at the head of the text is read with the line counter
    unchanged and adds its decoded text to the value, and the closing quote
    returns STRING with the joined value. *)
Theorem quoted_string_escapes :
  (forall (a : Tokenizer) (f : nat) (body t : string),
      wf a ->
      remaining a = String ch_dquote (body ++ String ch_dquote t) ->
      string_body body = true ->
      (S (String.length body) < f)%nat ->
      exists a',
        _next_token f a = Some (Ret (STRING, Some (decoded body)), a')
        /\ wf a' /\ remaining a' = t
        /\ line_num a'
           = add_lines (line_num a) (count_nl body - continuations body))
  /\ decoded "" = ""
  /\ (forall (e : ascii) (rest : string),
        decoded (String ch_bslash (String e rest))
        = join (escape_decoded e) ++ decoded rest)
  /\ (forall (c : ascii) (rest : string),
        c <> ch_bslash -> decoded (String c rest) = String c (decoded rest))
  /\ (forall (a : Tokenizer) (f : nat) (vc : list string),
        wf a ->
        (forall (e : ascii) (t : string),
            remaining a = String ch_bslash (String e t) ->
            exists a2,
              wf a2 /\ remaining a2 = t /\ line_num a2 = line_num a
              /\ read_string (S f) vc a
                 = read_string f (vc ++ escape_decoded e)%list a2)
        /\ (forall t : string,
              remaining a = String ch_dquote t ->
              exists a1,
                remaining a1 = t /\ line_num a1 = line_num a
                /\ read_string (S f) vc a
                   = Some (Ret (STRING, Some (join vc)), a1))).
Proof.
  splits.
  - intros a f body t Hwf Hrem Hb Hf.
    destruct (next_token_quoted a f body t Hwf Hrem Hb Hf)
      as (a' & E & Hwf' & Hrem' & Hl & _).
    exists a'. auto.
  - reflexivity.
  - intros e rest. reflexivity.
  - intros c rest Hc. cbn [decoded].
    destruct (c =? ch_bslash)%char eqn:E; [|reflexivity].
    apply Ascii.eqb_eq in E. contradiction.
  - intros a f vc Hwf. split.
    + intros e t Hrem.
      destruct (read_string_escape a e t Hwf Hrem)
        as (a2 & Hwf2 & Hrem2 & Hl2 & _ & E2).
      exists a2. auto.
    + intros t Hrem. cbn [read_string].
      read_known Hwf Hrem a1. exists a1. splits; auto.
Qed.

Lemma quoted_string_escapes_witness :
  exists a',
    _next_token 12
      (of_string (String ch_dquote
                    ("a" ++ String ch_bslash "nb" ++ String ch_bslash
                       (String ch_nl ("c" ++ String ch_bslash "q"
                                      ++ String ch_dquote " d")))) false)
    = Some (Ret (STRING,
                 Some ("a" ++ String ch_nl "bc" ++ String ch_bslash "q")), a')
    /\ wf a' /\ remaining a' = " d" /\ line_num a' = 1.
Proof.
  refine (proj1 quoted_string_escapes
            (of_string (String ch_dquote
                    ("a" ++ String ch_bslash "nb" ++ String ch_bslash
                       (String ch_nl ("c" ++ String ch_bslash "q"
                                      ++ String ch_dquote " d")))) false)
            12%nat
            ("a" ++ String ch_bslash "nb" ++ String ch_bslash
               (String ch_nl ("c" ++ String ch_bslash "q")))
            " d" _ eq_refl eq_refl _).
  - apply wf_of_string.
  - simpl. lia.
Defined.

(** C7 — EOF is final on a stream of strings.  Once [_next_token] has
    returned EOF there, every later call returns EOF again (with any fuel),
    and the line number and the file name stay as they were.  Every such
    call still increments the cursor, a C [int]: the statement is for the
    calls that keep it in range. *)
Theorem eof_is_stable (a : Tokenizer) (f : nat) (v : option string)
    (a' : Tokenizer) :
  str_stream a ->
  _next_token f a = Some (Ret (EOF, v), a') ->
  v = None
  /\ forall n f' : nat,
       char_index a' + Z.of_nat n <= 2147483647 ->
       exists a'',
         calls (S f') n a' = Some (repeat (Ret _tok_EOF) n, a'')
         /\ line_num a'' = line_num a' /\ filename a'' = filename a'.
Proof.
  intros Hs E. pose proof (next_token_eof f a Hs) as H. rewrite E in H.
  destruct H as (_ & H & _). destruct (H v eq_refl) as [Ha Hv].
  split; [exact Hv|]. intros n f' _.
  destruct (calls_at_eof f' n a' Ha) as (a'' & E' & _ & Hl & Hf).
  exists a''. auto.
Qed.

Lemma eof_is_stable_witness :
  exists a'',
    calls 1 3 (set_char_index (of_string " " false) 1)
    = Some (repeat (Ret _tok_EOF) 3, a'')
    /\ line_num a'' = 1 /\ filename a'' = "".
Proof.
  refine (proj2 (eof_is_stable (of_string " " false) 3 None
                   (set_char_index (of_string " " false) 1)
                   eq_refl eq_refl) 3%nat 0%nat _).
  simpl. lia.
Defined.

(** C7, as stated, fails: [None] in a stream of chunks is read as the end of
    the input, and the chunks after it are still to come.  On the chunks
    [None], [b] the first call returns EOF and the second STRING [b]. *)
Lemma eof_is_stable_counterexample :
  ~ (forall (a : Tokenizer) (f : nat) (v : option string) (a' : Tokenizer),
        _next_token f a = Some (Ret (EOF, v), a') ->
        forall f' : nat,
          exists a'', _next_token (S f') a' = Some (Ret _tok_EOF, a'')).
Proof.
  intros H.
  pose (a := {| cur_chunk := ""; chunk_iter := [PyNone; PyStr "b"];
                char_index := -1; error_type := TokenSyntaxError;
                filename := ""; line_num := 1; string_bracket := false |}).
  destruct (H a 1%nat None (set_chunk_iter (set_char_index a 0) [PyStr "b"])
              eq_refl 1%nat) as [a'' Ha].
  vm_compute in Ha. discriminate Ha.
Qed.

(** C1 — The chunking does not matter.  Let the non-empty strings [chunks]
    concatenate to [s].  The tokenizer built from the sequence of chunks and
    the one built from [s] itself give, for any number [n] of calls of
    [_next_token], the same outcomes (tokens with their values, and errors)
    in the same order, and end with the same line number; fuel above the
    length of [s] is enough for every call.  A rejected [error] class is the
    same exception on both sides. *)
Theorem chunking_invariance (s : string) (chunks : list string)
    (fname : option string) (error : option PyClass) (bracket : bool) :
  Forall (fun chunk => chunk <> "") chunks ->
  join chunks = s ->
  match __init__ (DataIter (map PyStr chunks) None) fname error bracket,
        __init__ (DataStr s) fname error bracket with
  | Ret a, Ret b =>
      forall n f : nat,
        (String.length s < f)%nat ->
        exists os a' b',
          calls f n a = Some (os, a') /\ calls f n b = Some (os, b')
          /\ line_num a' = line_num b'
  | Raise e, Raise e' => e = e'
  | _, _ => False
  end.
Proof.
  intros _ <-. pose proof (init_sim chunks fname error bracket) as H.
  assert (Hlen : forall b, __init__ (DataStr (join chunks)) fname error bracket = Ret b ->
                           remaining b = join chunks).
  { unfold __init__. intros b Hb.
    destruct error as [cls|]; [destruct (cls_is_syntax_error cls)|];
      try discriminate; injection Hb as <-;
      unfold remaining; simpl; apply append_nil_r. }
  destruct (__init__ (DataIter (map PyStr chunks) None) fname error bracket) as [a|e],
           (__init__ (DataStr (join chunks)) fname error bracket) as [b|e'];
    try exact H.
  intros n f Hf. specialize (Hlen b eq_refl).
  pose proof H as (Hwa & Hwb & Hrem & _).
  destruct (calls_total f n a Hwa) as (os & a' & Ea & _); [rewrite Hrem, Hlen; exact Hf|].
  pose proof (calls_sim f n a b H) as Hc. rewrite Ea in Hc.
  destruct (calls f n b) as [[os' b']|]; [|contradiction].
  destruct Hc as [<- Hs]. exists os, a', b'. splits; auto. apply Hs.
Qed.

Lemma chunking_invariance_witness :
  exists os a' b',
    calls 12 6 {| cur_chunk := ""; chunk_iter := [PyStr "ke"; PyStr "y "; PyStr "{"];
                  char_index := -1; error_type := TokenSyntaxError;
                  filename := ""; line_num := 1; string_bracket := false |}
    = Some (os, a')
    /\ calls 12 6 (of_string "key {" false) = Some (os, b')
    /\ line_num a' = line_num b'.
Proof.
  refine (chunking_invariance "key {" ["ke"; "y "; "{"] None None false
            _ eq_refl 6%nat 12%nat _).
  - repeat constructor; discriminate.
  - simpl. lia.
Defined.

(** C2 — Counting lines.  A call of [_next_token] whose fuel exceeds the
    length of the text to read comes back, having read a prefix [p] of that
    text (what it pushed back is not in [p]), and leaves a well-formed
    object, so that the statement applies to the next call as well.  The
    line counter has been incremented [k] times, at most once for each
    newline character of [p]: a newline decoded from the escape
    backslash-[n] does not count.  When the call returns a token, [k] is
    exactly the number of newlines of [p] less its line continuations
    ([uncounted]): the newlines read as the escape character after a
    backslash inside a quoted string.  A text that starts, after spaces and
    tabs, with anything but a double quote has none, so that the newlines
    read at top level, in parentheses (also after a backslash) or after a
    comment are all counted; so are, in a quoted string, the newlines that
    do not follow the backslash of an escape sequence.  The counter is a C
    [int]: [k] increments add [k] as long as the sum is in range, and wrap
    around beyond.  The string of the specification, quote [a] backslash [n]
    [b] quote, decodes to a value with a newline and leaves the counter
    at 1. *)
Theorem line_counting :
  (forall (a : Tokenizer) (f : nat),
      wf a -> (String.length (remaining a) < f)%nat ->
      exists o a' p k,
        _next_token f a = Some (o, a')
        /\ wf a'
        /\ remaining a = p ++ remaining a'
        /\ (k <= count_nl p)%nat
        /\ line_num a' = add_lines (line_num a) k
        /\ (returns o -> k = (count_nl p - uncounted p)%nat))
  /\ (forall (c : ascii) (p : string),
        (c =? ch_dquote)%char = false -> char_in c blanks = false ->
        uncounted (String c p) = O)
  /\ (forall p : string,
        uncounted (String ch_dquote p) = continuations p)
  /\ (forall (c e : ascii) (s : string),
        continuations (String ch_bslash (String e s))
        = ((if (e =? ch_nl)%char then 1 else 0) + continuations s)%nat
        /\ continuations (String ch_dquote s) = O
        /\ ((c =? ch_dquote)%char = false -> (c =? ch_bslash)%char = false ->
            continuations (String c s) = continuations s))
  /\ (forall (line : Z) (k : nat),
        int_range line -> line + Z.of_nat k <= 2147483647 ->
        add_lines line k = line + Z.of_nat k)
  /\ (forall (line : Z) (k : nat),
        add_lines line (S k) = wrap_int (line + Z.of_nat (S k)))
  /\ option_map (fun r => (fst r, line_num (snd r)))
       (_next_token 8
          (of_string (String ch_dquote ("a" ++ String ch_bslash "nb"
                                        ++ str1 ch_dquote)) false))
     = Some (Ret (STRING, Some ("a" ++ String ch_nl "b")), 1).
Proof.
  splits; [| | | | | | reflexivity].
  - intros a f Hwf Hf.
    destruct (next_token_frame f a Hwf Hf) as (o & a' & p & E & Hc & Hex & _).
    destruct Hc as (Hwf' & _ & Hrem & k & Hk & Hl). unfold exact_lines in Hex.
    destruct o as [tok|e].
    + exists (Ret tok), a', p, (count_nl p - uncounted p)%nat.
      splits; auto; [lia | apply Hex; exact I].
    + exists (Raise e), a', p, k. splits; auto. intros [].
  - intros c p Hdq Hbl. cbn [uncounted]. rewrite Hdq.
    change (String " " (str1 ch_tab)) with blanks. rewrite Hbl. reflexivity.
  - intros p. reflexivity.
  - intros c e s. splits; try reflexivity.
    intros Hdq Hbs. cbn [continuations]. rewrite Hdq, Hbs. reflexivity.
  - apply add_lines_in_range.
  - intros line k. apply add_lines_wrap.
Qed.

Lemma line_counting_witness :
  exists o a' p k,
    _next_token 9 (of_string ("(a" ++ String ch_nl "b) c") false) = Some (o, a')
    /\ wf a'
    /\ remaining (of_string ("(a" ++ String ch_nl "b) c") false) = p ++ remaining a'
    /\ (k <= count_nl p)%nat
    /\ line_num a' = add_lines 1 k
    /\ (returns o -> k = (count_nl p - uncounted p)%nat).
Proof.
  refine (proj1 line_counting
            (of_string ("(a" ++ String ch_nl "b) c") false) 9%nat _ _).
  - apply wf_of_string.
  - vm_compute. lia.
Defined.

(** C2, as stated, fails: in the quoted string made of a backslash and a
    newline, the call reads four characters, one of them a newline, returns
    the empty STRING, and leaves the line counter at 1. *)
Lemma line_counting_counterexample :
  ~ (forall (a : Tokenizer) (f : nat) (o : Outcome TokenPair)
            (a' : Tokenizer) (p : string),
        wf a -> _next_token f a = Some (o, a') ->
        remaining a = p ++ remaining a' ->
        line_num a' = line_num a + Z.of_nat (count_nl p)).
Proof.
  intros H.
  pose (text := String ch_dquote (String ch_bslash (String ch_nl (str1 ch_dquote)))).
  specialize (H (of_string text false) 5%nat (Ret (STRING, Some ""))
                (set_char_index (of_string text false) 3) text
                (wf_of_string text false) eq_refl eq_refl).
  vm_compute in H. discriminate H.
Qed.




(** C5 — What [expect] returns.  The body of [expect] has no [return]: a
    call that does not raise returns [None].  It has consumed the matched
    token: the object is left as the call of [_next_token] that returned a
    token of the expected kind left it, and the value of that token is not
    handed back. *)
Theorem expect_returns_none (a : Tokenizer) (f : nat) (kind : Token)
    (skip : bool) (r : option string) (a' : Tokenizer) :
  expect f kind skip a = Some (Ret r, a') ->
  r = None
  /\ exists a_j v, _next_token f a_j = Some (Ret (kind, v), a').
Proof.
  unfold expect. unfold bind at 1. intros H.
  destruct (_next_token f a) as [[[tok0|e] a1]|] eqn:E0; try discriminate.
  unfold bind at 1 in H.
  destruct (skip_newlines f f _ tok0 a1) as [[[[k v]|e] a2]|] eqn:E1;
    try discriminate.
  destruct (Token_eqb k kind) eqn:Ek; unfold raise_error, ret in H;
    simpl in H; [|discriminate].
  injection H as <- <-. apply Token_eqb_eq in Ek. subst k.
  split; [reflexivity|].
  destruct (skip_newlines_last _ _ _ _ _ _ _ E1) as [[Ht ->]|[a_j Hj]].
  - subst tok0. exists a, v. exact E0.
  - exists a_j, v. exact Hj.
Qed.

Lemma expect_returns_none_witness :
  @None string = None
  /\ exists a_j v,
       _next_token 5 a_j
       = Some (Ret (STRING, v), set_char_index (of_string "foo" false) 3).
Proof.
  exact (expect_returns_none (of_string "foo" false) 5 STRING true None
           (set_char_index (of_string "foo" false) 3) eq_refl).
Defined.

(** C5, as stated, fails: on the text [foo] the next token is STRING with the
    value [foo], and [expect(STRING)] succeeds and returns [None]. *)
Lemma expect_value_counterexample :
  ~ (forall (a : Tokenizer) (f : nat) (kind : Token) (skip : bool)
            (v r : option string) (a1 a' : Tokenizer),
        _next_token f a = Some (Ret (kind, v), a1) ->
        expect f kind skip a = Some (Ret r, a') ->
        r = v).
Proof.
  intros H.
  specialize (H (of_string "foo" false) 5%nat STRING true (Some "foo") None
                (set_char_index (of_string "foo" false) 3)
                (set_char_index (of_string "foo" false) 3)
                eq_refl eq_refl).
  discriminate H.
Qed.



(** * Further results *)

(** ** Reading a whole body *)

Lemma join_app_chars (body : string) : forall vc,
  join (vc ++ chars body)%list = join vc ++ body.
Proof.
  induction body as [|c body IH]; intros vc; simpl.
  - rewrite app_nil_r, append_nil_r. reflexivity.
  - change (vc ++ str1 c :: chars body)%list
      with (vc ++ [str1 c] ++ chars body)%list.
    rewrite app_assoc, IH, join_snoc, append_assoc. reflexivity.
Qed.

Lemma join_chars (body : string) : join (chars body) = body.
Proof. exact (join_app_chars body []). Qed.

Lemma none_of_head (stops : string) (c d : ascii) (body : string) :
  none_of stops (String c body) = true -> char_in d stops = true ->
  (c =? d)%char = false.
Proof.
  cbn [none_of]. intros H Hd. apply andb_true_iff in H. destruct H as [H _].
  apply negb_true_iff in H. exact (char_in_false_eqb c d stops H Hd).
Qed.

Lemma none_of_tail (stops : string) (c : ascii) (body : string) :
  none_of stops (String c body) = true -> none_of stops body = true.
Proof.
  cbn [none_of]. intros H. apply andb_true_iff in H. apply H.
Qed.

(** The body of a group, up to a closing parenthesis or the end of the
    input: the loop goes on after it with the body added to the value and
    the newlines of the body counted. *)
Lemma read_parens_body (body : string) : forall vc a f t,
  wf a -> remaining a = body ++ t -> none_of ")" body = true ->
  exists a1,
    wf a1 /\ remaining a1 = t
    /\ line_num a1 = add_lines (line_num a) (count_nl body)
    /\ same_config a a1
    /\ read_parens (String.length body + f) vc a
       = read_parens f (vc ++ chars body)%list a1.
Proof.
  induction body as [|c body IH]; intros vc a f t Hwf Hrem Hb.
  - exists a. simpl. rewrite app_nil_r. splits; auto. apply same_config_refl.
  - cbn [append] in Hrem. cbn [String.length Nat.add read_parens].
    read_known Hwf Hrem a1.
    rewrite (none_of_head _ c ")" _ Hb eq_refl).
    pose proof (none_of_tail _ _ _ Hb) as Hb'.
    destruct (c =? ch_nl)%char eqn:Ec.
    + unfold bind at 1, incr_line at 1.
      destruct (IH (vc ++ [str1 c])%list
                  (set_line_num a1 (wrap_int (line_num a1 + 1))) f t)
        as (a2 & Hwf2 & Hrem2 & Hl2 & Hcfg2 & E2); auto.
      exists a2. rewrite E2. simpl in Hl2. cbn [count_nl chars]. rewrite Ec.
      change (vc ++ str1 c :: chars body)%list
        with (vc ++ [str1 c] ++ chars body)%list.
      rewrite app_assoc.
      splits; auto;
        [ cbn [Nat.add add_lines]; congruence
        | eapply same_config_trans; [exact Hcfg | exact Hcfg2] ].
    + destruct (IH (vc ++ [str1 c])%list a1 f t)
        as (a2 & Hwf2 & Hrem2 & Hl2 & Hcfg2 & E2); auto.
      exists a2. rewrite E2. cbn [count_nl chars]. rewrite Ec.
      change (vc ++ str1 c :: chars body)%list
        with (vc ++ [str1 c] ++ chars body)%list.
      rewrite app_assoc.
      splits; auto;
        [ cbn [Nat.add]; congruence
        | eapply same_config_trans; [exact Hcfg | exact Hcfg2] ].
Qed.

(** The body of a property flag: no bracket, no newline. *)
Lemma read_flag_body (body : string) : forall vc a f t,
  wf a -> remaining a = body ++ t -> none_of flag_stops body = true ->
  exists a1,
    wf a1 /\ remaining a1 = t
    /\ line_num a1 = line_num a /\ same_config a a1
    /\ read_flag (String.length body + f) vc a
       = read_flag f (vc ++ chars body)%list a1.
Proof.
  induction body as [|c body IH]; intros vc a f t Hwf Hrem Hb.
  - exists a. simpl. rewrite app_nil_r. splits; auto. apply same_config_refl.
  - cbn [append] in Hrem. cbn [String.length Nat.add read_flag].
    read_known Hwf Hrem a1.
    rewrite (none_of_head _ c "]" _ Hb eq_refl).
    rewrite (none_of_head _ c ch_nl _ Hb eq_refl).
    pose proof (none_of_tail _ _ _ Hb) as Hb'.
    destruct (IH (vc ++ [str1 c])%list a1 f t)
      as (a2 & Hwf2 & Hrem2 & Hl2 & Hcfg2 & E2); auto.
    exists a2. rewrite E2. cbn [chars].
    change (vc ++ str1 c :: chars body)%list
      with (vc ++ [str1 c] ++ chars body)%list.
    rewrite app_assoc.
    splits; auto; [lia | eapply same_config_trans; [exact Hcfg | exact Hcfg2]].
Qed.

(** A text without quote and backslash can stand between quotes, is its
    own decoded value and has no line continuation. *)
Lemma plain_string_body (body : string) :
  none_of string_stops body = true ->
  string_body body = true /\ decoded body = body /\ continuations body = O.
Proof.
  induction body as [|c body IH]; intros Hb; [auto|].
  pose proof (none_of_head _ c ch_dquote _ Hb eq_refl) as Hdq.
  pose proof (none_of_head _ c ch_bslash _ Hb eq_refl) as Hbs.
  destruct (IH (none_of_tail _ _ _ Hb)) as (H1 & H2 & H3).
  cbn [string_body decoded continuations]. rewrite Hdq, Hbs, H1, H2, H3.
  auto.
Qed.

(** The exception [_error] builds at [a1] is the one with the class and the
    file name of [a], when [a1] has the configuration of [a]. *)
Lemma error_same_config (a a1 : Tokenizer) (message : string) :
  same_config a a1 ->
  _error a1 message
  = ErrorInstance (error_type a) message (filename a) (line_num a1).
Proof. intros (Hf & He & _). unfold _error. rewrite Hf, He. reflexivity. Qed.

(** X1 — A parenthesised group.  The text between [(] and the first [)] is
    returned raw as the value of PAREN_ARGS, newlines included, and the line
    counter has been incremented once for each of its newlines. *)
Theorem parens_group (a : Tokenizer) (f : nat) (body t : string) :
  wf a -> remaining a = String "(" (body ++ String ")" t) ->
  none_of ")" body = true ->
  exists a',
    _next_token (S (String.length body + S f)) a
    = Some (Ret (PAREN_ARGS, Some body), a')
    /\ wf a' /\ remaining a' = t
    /\ line_num a' = add_lines (line_num a) (count_nl body).
Proof.
  intros Hwf Hrem Hb. cbn [_next_token].
  read_known Hwf Hrem a1. cbn -[read_parens].
  destruct (read_parens_body body [] a1 (S f) (String ")" t))
    as (a2 & Hwf2 & Hrem2 & Hl2 & Hcfg2 & E2); auto.
  rewrite E2. cbn [read_parens].
  read_known Hwf2 Hrem2 a3. cbn -[join chars].
  exists a3. rewrite join_chars. splits; auto. congruence.
Qed.

Lemma parens_group_witness :
  exists a',
    _next_token 6 (of_string ("(a" ++ String ch_nl "b) c") false)
    = Some (Ret (PAREN_ARGS, Some ("a" ++ String ch_nl "b")), a')
    /\ wf a' /\ remaining a' = " c" /\ line_num a' = 2.
Proof.
  refine (parens_group (of_string ("(a" ++ String ch_nl "b) c") false) 1%nat
            ("a" ++ String ch_nl "b") " c" _ eq_refl eq_refl).
  unfold wf. simpl. split; [lia | reflexivity].
Defined.

(** X2 — A group that is not closed.  When the input ends before a [)], the
    call raises "Unterminated parentheses!" with the line number of the end
    of the input: the line counter at the [(], incremented once for each
    newline read since. *)
Theorem parens_unterminated (a : Tokenizer) (f : nat) (body : string) :
  wf a -> remaining a = String "(" body ->
  none_of ")" body = true ->
  exists a',
    _next_token (S (String.length body + S f)) a
    = Some (Raise (ErrorInstance (error_type a) "Unterminated parentheses!"
                     (filename a)
                     (add_lines (line_num a) (count_nl body))), a').
Proof.
  intros Hwf Hrem Hb. cbn [_next_token].
  read_known Hwf Hrem a1. cbn -[read_parens].
  destruct (read_parens_body body [] a1 (S f) "")
    as (a2 & Hwf2 & Hrem2 & Hl2 & Hcfg2 & E2); auto;
    [rewrite append_nil_r; assumption|].
  rewrite E2. cbn [read_parens].
  read_known Hwf2 Hrem2 a3. unfold raise_error.
  exists a3. rewrite (error_same_config a a3).
  - replace (line_num a3) with (add_lines (line_num a) (count_nl body))
      by congruence.
    reflexivity.
  - eapply same_config_trans; [exact Hcfg|].
    eapply same_config_trans; [exact Hcfg2 | exact Hcfg0].
Qed.

Lemma parens_unterminated_witness :
  exists a',
    _next_token 5 (of_string ("(a" ++ String ch_nl "b") false)
    = Some (Raise (ErrorInstance TokenSyntaxError "Unterminated parentheses!"
                     "" 2), a').
Proof.
  refine (parens_unterminated (of_string ("(a" ++ String ch_nl "b") false) 0%nat
            ("a" ++ String ch_nl "b") _ eq_refl eq_refl).
  unfold wf. simpl. split; [lia | reflexivity].
Defined.

(** X3 — A property flag.  With [string_bracket] set, the text between [[]
    and the first []], which has no newline, is returned raw as the value of
    PROP_FLAG: a backslash in it is an ordinary character. *)
Theorem prop_flag (a : Tokenizer) (f : nat) (body t : string) :
  wf a -> string_bracket a = true ->
  remaining a = String "[" (body ++ String "]" t) ->
  none_of flag_stops body = true ->
  exists a',
    _next_token (S (String.length body + S f)) a
    = Some (Ret (PROP_FLAG, Some body), a')
    /\ wf a' /\ remaining a' = t /\ line_num a' = line_num a.
Proof.
  intros Hwf Hflag Hrem Hb. cbn [_next_token].
  read_known Hwf Hrem a1. cbn -[read_flag bind get_string_bracket].
  unfold bind at 1, get_string_bracket at 1.
  replace (string_bracket a1) with true
    by (destruct Hcfg as (_ & _ & Hsb); congruence).
  cbn [negb].
  destruct (read_flag_body body [] a1 (S f) (String "]" t))
    as (a2 & Hwf2 & Hrem2 & Hl2 & Hcfg2 & E2); auto.
  rewrite E2. cbn [read_flag].
  read_known Hwf2 Hrem2 a3. cbn -[join chars].
  exists a3. rewrite join_chars. splits; auto. lia.
Qed.

Lemma prop_flag_witness :
  exists a',
    _next_token 6 (of_string ("[a" ++ String ch_bslash "n] x") true)
    = Some (Ret (PROP_FLAG, Some ("a" ++ String ch_bslash "n")), a')
    /\ wf a' /\ remaining a' = " x" /\ line_num a' = 1.
Proof.
  refine (prop_flag (of_string ("[a" ++ String ch_bslash "n] x") true) 1
            ("a" ++ String ch_bslash "n") " x" _ eq_refl eq_refl eq_refl).
  unfold wf. simpl. split; [lia | reflexivity].
Defined.

(** X4 — A property flag must be closed on its line.  A newline before the
    []] raises "Unexpected token NEWLINE!", and the end of the input
    "Unterminated property flag!"; both carry the line number of the [[],
    the newline not being counted. *)
Theorem prop_flag_errors (a : Tokenizer) (f : nat) (body : string) :
  wf a -> string_bracket a = true ->
  none_of flag_stops body = true ->
  (forall t,
      remaining a = String "[" (body ++ String ch_nl t) ->
      exists a',
        _next_token (S (String.length body + S f)) a
        = Some (Raise (ErrorInstance (error_type a) "Unexpected token NEWLINE!"
                         (filename a) (line_num a)), a')
        /\ remaining a' = t)
  /\ (remaining a = String "[" body ->
      exists a',
        _next_token (S (String.length body + S f)) a
        = Some (Raise (ErrorInstance (error_type a)
                         "Unterminated property flag!"
                         (filename a) (line_num a)), a')).
Proof.
  intros Hwf Hflag Hb.
  assert (Hstart : forall t, remaining a = String "[" (body ++ t) ->
    exists a2,
      wf a2 /\ remaining a2 = t /\ line_num a2 = line_num a
      /\ same_config a a2
      /\ _next_token (S (String.length body + S f)) a
         = read_flag (S f) ([] ++ chars body)%list a2).
  { intros t Hrem. cbn [_next_token].
    read_known Hwf Hrem a1. cbn -[read_flag bind get_string_bracket].
    unfold bind at 1, get_string_bracket at 1.
    replace (string_bracket a1) with true
      by (destruct Hcfg as (_ & _ & Hsb); congruence).
    cbn [negb].
    destruct (read_flag_body body [] a1 (S f) t)
      as (a2 & Hwf2 & Hrem2 & Hl2 & Hcfg2 & E2); auto.
    exists a2. splits; auto; [lia | eapply same_config_trans; eauto]. }
  split.
  - intros t Hrem.
    destruct (Hstart _ Hrem) as (a2 & Hwf2 & Hrem2 & Hl2 & Hcfg2 & E2).
    rewrite E2. cbn [read_flag].
    read_known Hwf2 Hrem2 a3. cbn -[join chars].
    unfold raise_token, error. exists a3.
    rewrite (error_same_config a a3) by (eapply same_config_trans; eauto).
    split; [|assumption].
    replace (line_num a3) with (line_num a) by lia. reflexivity.
  - intros Hrem. rewrite <- (append_nil_r body) in Hrem.
    destruct (Hstart _ Hrem) as (a2 & Hwf2 & Hrem2 & Hl2 & Hcfg2 & E2).
    rewrite E2. cbn [read_flag].
    read_known Hwf2 Hrem2 a3. unfold raise_error. exists a3.
    rewrite (error_same_config a a3) by (eapply same_config_trans; eauto).
    replace (line_num a3) with (line_num a) by lia. reflexivity.
Qed.

Lemma prop_flag_errors_witness :
  exists a',
    _next_token 4 (of_string ("[a" ++ String ch_nl "]") true)
    = Some (Raise (ErrorInstance TokenSyntaxError "Unexpected token NEWLINE!"
                     "" 1), a')
    /\ remaining a' = "]".
Proof.
  refine (proj1 (prop_flag_errors (of_string ("[a" ++ String ch_nl "]") true) 1
                   "a" _ eq_refl eq_refl) "]" eq_refl).
  unfold wf. simpl. split; [lia | reflexivity].
Defined.

(** X5 — A quoted string without escapes.  The text between two double
    quotes, when it has no backslash, is the value of the STRING token as it
    stands, over several lines if it has newlines; the line counter has been
    incremented once for each of them. *)
Theorem plain_quoted_string (a : Tokenizer) (f : nat) (body t : string) :
  wf a -> remaining a = String ch_dquote (body ++ String ch_dquote t) ->
  none_of string_stops body = true ->
  exists a',
    _next_token (S (String.length body + S f)) a
    = Some (Ret (STRING, Some body), a')
    /\ wf a' /\ remaining a' = t
    /\ line_num a' = add_lines (line_num a) (count_nl body).
Proof.
  intros Hwf Hrem Hb.
  destruct (plain_string_body body Hb) as (Hsb & Hdec & Hcont).
  destruct (next_token_quoted a (S (String.length body + S f)) body t
              Hwf Hrem Hsb ltac:(lia))
    as (a' & E & Hwf' & Hrem' & Hl & _).
  exists a'. rewrite Hdec in E. rewrite Hcont, Nat.sub_0_r in Hl. auto.
Qed.

Lemma plain_quoted_string_witness :
  exists a',
    _next_token 6 (of_string (String ch_dquote ("a" ++ String ch_nl "b"
                                                ++ String ch_dquote "c")) false)
    = Some (Ret (STRING, Some ("a" ++ String ch_nl "b")), a')
    /\ wf a' /\ remaining a' = "c" /\ line_num a' = 2.
Proof.
  refine (plain_quoted_string
            (of_string (String ch_dquote ("a" ++ String ch_nl "b"
                                          ++ String ch_dquote "c")) false) 1%nat
            ("a" ++ String ch_nl "b") "c" _ eq_refl eq_refl).
  unfold wf. simpl. split; [lia | reflexivity].
Defined.

(** X6 — A quoted string that is not closed.  When the input ends right
    after a backslash inside a quoted string, the call raises "Unterminated
    string!" with the line number reached.  When it ends anywhere else
    inside the string, the test for the sentinel at the head of the loop
    does not find it, and the call raises the built-in [ValueError] of the
    [append] that follows, which has no file name and no line number.  In
    both cases the line counter has been incremented once for each newline
    of the string that is not a line continuation. *)
Theorem string_unterminated (a : Tokenizer) (f : nat) (body : string) :
  wf a -> string_body body = true ->
  (remaining a = String ch_dquote (body ++ str1 ch_bslash) ->
   exists a',
     _next_token (S (String.length body + S (S f))) a
     = Some (Raise (ErrorInstance (error_type a) "Unterminated string!"
                      (filename a)
                      (add_lines (line_num a)
                         (count_nl body - continuations body))), a'))
  /\ (remaining a = String ch_dquote body ->
      exists a',
        _next_token (S (String.length body + S (S f))) a
        = Some (Raise (ValueError "chr() arg not in range(0x110000)"), a')
        /\ line_num a'
           = add_lines (line_num a) (count_nl body - continuations body)).
Proof.
  intros Hwf Hb. split; intros Hrem.
  - apply next_token_quoted_bslash_end; auto. lia.
  - apply next_token_quoted_end; auto. lia.
Qed.

Lemma string_unterminated_witness :
  exists a',
    _next_token 7
      (of_string (String ch_dquote ("a" ++ String ch_nl ("b" ++ str1 ch_bslash)))
         false)
    = Some (Raise (ErrorInstance TokenSyntaxError "Unterminated string!"
                     "" 2), a').
Proof.
  refine (proj1 (string_unterminated
            (of_string (String ch_dquote ("a" ++ String ch_nl ("b" ++ str1 ch_bslash)))
               false) 1%nat
            ("a" ++ String ch_nl "b") _ eq_refl) eq_refl).
  unfold wf. simpl. split; [lia | reflexivity].
Defined.

(** X7 — Characters that start no token.  Every character of
    [BARE_DISALLOWED] either starts a token (or is skipped) or is one of the
    single quote, [<], [>], [;] and [)]; at the start of a token these five
    raise "Unexpected character", with the character in the message and the
    current line number. *)
Theorem unexpected_character :
  (forall c : ascii,
      char_in c BARE_DISALLOWED = char_in c token_starts || char_in c stray)
  /\ (forall (a : Tokenizer) (f : nat) (c : ascii) (t : string),
        wf a -> remaining a = String c t -> char_in c stray = true ->
        exists a',
          _next_token (S f) a
          = Some (Raise (ErrorInstance (error_type a)
                           ("Unexpected character " ++ String ch_dquote (str1 c)
                            ++ String ch_dquote "!")
                           (filename a) (line_num a)), a')
          /\ remaining a' = t).
Proof.
  split.
  - intros [b0 b1 b2 b3 b4 b5 b6 b7].
    destruct b0, b1, b2, b3, b4, b5, b6, b7; reflexivity.
  - intros a f c t Hwf Hrem Hc. cbn [_next_token].
    read_known Hwf Hrem a1.
    assert (Hcase : c = ch_squote \/ c = "<"%char \/ c = ">"%char
                    \/ c = ";"%char \/ c = ")"%char).
    { unfold stray in Hc. cbn [char_in] in Hc.
      rewrite !orb_true_iff, !Ascii.eqb_eq in Hc.
      intuition discriminate. }
    exists a1. split; [|assumption].
    replace (line_num a) with (line_num a1) by lia.
    rewrite <- (error_same_config a a1) by assumption.
    destruct Hcase as [->|[->|[->|[->| ->]]]]; reflexivity.
Qed.

Lemma unexpected_character_witness :
  exists a',
    _next_token 1 (of_string "<a" false)
    = Some (Raise (ErrorInstance TokenSyntaxError
                     ("Unexpected character " ++ String ch_dquote ("<"
                      ++ String ch_dquote "!")) "" 1), a')
    /\ remaining a' = "a".
Proof.
  refine (proj2 unexpected_character (of_string "<a" false) 0%nat "<"%char "a"
            _ eq_refl eq_refl).
  unfold wf. simpl. split; [lia | reflexivity].
Defined.

(** X8 — Blanks between tokens.  Spaces and tabs before a token are skipped:
    the call goes on as a call on the text after them, with the same line
    number, so they change neither the token nor an error. *)
Theorem leading_blanks_skipped (ws : string) :
  forall (a : Tokenizer) (f : nat) (t : string),
    wf a -> remaining a = ws ++ t -> all_blank ws = true ->
    exists a1,
      wf a1 /\ remaining a1 = t /\ line_num a1 = line_num a
      /\ same_config a a1
      /\ _next_token (String.length ws + f) a = _next_token f a1.
Proof.
  induction ws as [|c ws IH]; intros a f t Hwf Hrem Hws.
  - exists a. simpl. splits; auto. apply same_config_refl.
  - cbn [append all_blank] in Hrem, Hws.
    apply andb_true_iff in Hws. destruct Hws as [Hc Hws].
    cbn [String.length Nat.add _next_token].
    read_known Hwf Hrem a1.
    destruct (IH a1 f t) as (a2 & Hwf2 & Hrem2 & Hl2 & Hcfg2 & E2); auto.
    exists a2. rewrite <- E2.
    split; [exact Hwf2|]. split; [exact Hrem2|]. split; [lia|].
    split; [eapply same_config_trans; eauto|].
    unfold blanks in Hc. cbn [char_in str1] in Hc.
    rewrite !orb_true_iff, !Ascii.eqb_eq in Hc.
    destruct Hc as [->|[->|Hc]]; [reflexivity | reflexivity | discriminate Hc].
Qed.

Lemma leading_blanks_skipped_witness :
  exists a1,
    wf a1 /\ remaining a1 = "{" /\ line_num a1 = 1
    /\ same_config (of_string (" " ++ String ch_tab "{") false) a1
    /\ _next_token (2 + 1) (of_string (" " ++ String ch_tab "{") false)
       = _next_token 1 a1.
Proof.
  refine (leading_blanks_skipped (" " ++ str1 ch_tab)
            (of_string (" " ++ String ch_tab "{") false) 1%nat "{" _ eq_refl eq_refl).
  unfold wf. simpl. split; [lia | reflexivity].
Defined.

(** ** The shape of the tokens *)

Lemma char_in_append (c : ascii) (s1 s2 : string) :
  char_in c (s1 ++ s2) = char_in c s1 || char_in c s2.
Proof.
  induction s1 as [|d s1 IH]; simpl; [reflexivity|].
  rewrite IH, orb_assoc. reflexivity.
Qed.

Lemma none_of_append (stops s1 s2 : string) :
  none_of stops (s1 ++ s2) = none_of stops s1 && none_of stops s2.
Proof.
  induction s1 as [|d s1 IH]; simpl; [reflexivity|].
  rewrite IH, andb_assoc. reflexivity.
Qed.

Lemma next_char_config (a : Tokenizer) : same_config a (snd (_next_char a)).
Proof.
  unfold _next_char. destruct a as [cur it idx cls file line br]. simpl.
  destruct (idx + 1 <? len cur)%Z.
  - destruct (py_getitem cur (idx + 1)); repeat split.
  - destruct it as [|[[|c r]| |] it]; try (repeat split; fail).
    match goal with
    | |- context [skip_empty_chunks ?s0 it] =>
        pose proof (skip_empty_chunks_error it s0) as Hs;
        destruct (skip_empty_chunks s0 it) as [o a']
    end.
    destruct Hs as (_ & Hc & _). exact Hc.
Qed.

Lemma skip_comment_config (f : nat) : forall a o a',
  skip_comment f a = Some (o, a') -> same_config a a'.
Proof.
  induction f as [|f IH]; intros a o a' H; [discriminate|].
  cbn [skip_comment] in H. unfold bind, next_char in H.
  pose proof (next_char_config a) as Hc.
  destruct (_next_char a) as [[[c|]|e] a1]; simpl in Hc.
  - destruct (c =? ch_nl)%char.
    + injection H as _ <-. exact Hc.
    + eapply same_config_trans; [exact Hc | eapply IH; exact H].
  - injection H as _ <-. exact Hc.
  - injection H as _ <-. exact Hc.
Qed.

Lemma read_parens_value (f : nat) : forall vc a tok a',
  read_parens f vc a = Some (Ret tok, a') ->
  char_in ")" (join vc) = false ->
  exists v, tok = (PAREN_ARGS, Some v) /\ char_in ")" v = false.
Proof.
  induction f as [|f IH]; intros vc a tok a' H Hvc; [discriminate|].
  cbn [read_parens] in H. unfold bind at 1, next_char at 1 in H.
  destruct (_next_char a) as [[[c|]|e] a1]; try discriminate.
  destruct (c =? ")")%char eqn:Ep.
  - injection H as <- _. eauto.
  - assert (Hvc' : char_in ")" (join (vc ++ [str1 c])) = false).
    { rewrite join_snoc, char_in_append, Hvc. cbn [char_in str1 orb].
      rewrite Ascii.eqb_sym, Ep. reflexivity. }
    destruct (c =? ch_nl)%char; [unfold bind, incr_line in H|];
      eapply IH; eassumption.
Qed.

Lemma read_flag_value (f : nat) : forall vc a tok a',
  read_flag f vc a = Some (Ret tok, a') ->
  none_of flag_stops (join vc) = true ->
  exists v, tok = (PROP_FLAG, Some v) /\ none_of flag_stops v = true.
Proof.
  induction f as [|f IH]; intros vc a tok a' H Hvc; [discriminate|].
  cbn [read_flag] in H. unfold bind at 1, next_char at 1 in H.
  destruct (_next_char a) as [[[c|]|e] a1]; try discriminate.
  destruct (c =? "]")%char eqn:Ep.
  - injection H as <- _. eauto.
  - destruct (c =? ch_nl)%char eqn:En; [discriminate|].
    eapply IH; [exact H|].
    rewrite join_snoc, none_of_append, Hvc. unfold flag_stops.
    cbn [none_of char_in str1]. rewrite Ep, En. reflexivity.
Qed.

Lemma read_string_value (f : nat) : forall vc a tok a',
  read_string f vc a = Some (Ret tok, a') ->
  exists v, tok = (STRING, Some v).
Proof.
  induction f as [|f IH]; intros vc a tok a' H; [discriminate|].
  cbn [read_string] in H. unfold bind at 1, next_char at 1 in H.
  destruct (_next_char a) as [[[c|]|e] a1]; try discriminate.
  destruct (c =? ch_dquote)%char; [injection H as <- _; eauto|].
  destruct (c =? ch_nl)%char;
    [unfold bind, incr_line in H; eapply IH; exact H|].
  destruct (c =? ch_bslash)%char; [|eapply IH; exact H].
  unfold bind at 1, next_char at 1 in H.
  destruct (_next_char a1) as [[[e|]|e] a2]; try discriminate.
  repeat match type of H with
         | (if ?b then _ else _) _ = _ => destruct b
         end; eapply IH; exact H.
Qed.

Lemma read_bare_value (f : nat) : forall vc a tok a',
  read_bare f vc a = Some (Ret tok, a') ->
  exists v, tok = (STRING, Some v).
Proof.
  induction f as [|f IH]; intros vc a tok a' H; [discriminate|].
  cbn [read_bare] in H. unfold bind at 1, next_char at 1 in H.
  destruct (_next_char a) as [[[c|]|e] a1]; try discriminate.
  - destruct (char_in c BARE_DISALLOWED).
    + unfold bind, unget_char, ret in H. injection H as <- _. eauto.
    + eapply IH; exact H.
  - injection H as <- _. eauto.
Qed.

Lemma next_token_shape (f : nat) :
  forall (a : Tokenizer) (tok : TokenPair) (a' : Tokenizer),
    _next_token f a = Some (Ret tok, a') ->
    token_shape tok = true
    /\ (fst tok = PROP_FLAG -> string_bracket a = true)
    /\ (fst tok = BRACK_OPEN -> string_bracket a = false).
Proof.
  induction f as [|f IH]; intros a tok a' H; [discriminate|].
  cbn [_next_token] in H. unfold bind at 1, next_char at 1 in H.
  pose proof (next_char_config a) as Hc.
  destruct (_next_char a) as [[[c|]|e] a1]; simpl in Hc; try discriminate.
  2:{ injection H as <- _. splits; [reflexivity | discriminate | discriminate]. }
  destruct Hc as (_ & _ & Hsb).
  do 6 (match type of H with
        | (if ?b then _ else _) _ = _ =>
            destruct b;
            [injection H as <- _;
             splits; [reflexivity | discriminate | discriminate]|]
        end).
  destruct (c =? ch_nl)%char.
  { unfold bind, incr_line, ret in H. injection H as <- _.
    splits; [reflexivity | discriminate | discriminate]. }
  destruct (char_in c (String " " (str1 ch_tab))).
  { rewrite Hsb. eapply IH; exact H. }
  destruct (c =? "/")%char.
  { unfold bind at 1, next_char at 1 in H.
    pose proof (next_char_config a1) as Hc2.
    destruct (_next_char a1) as [[c2|e] a2]; simpl in Hc2; try discriminate.
    destruct (match c2 with
              | Some c0 => negb (c0 =? "/")%char
              | None => true
              end); [discriminate|].
    unfold bind at 1 in H.
    destruct (skip_comment f a2) as [[[[]|e] a3]|] eqn:E3; try discriminate.
    apply skip_comment_config in E3.
    unfold bind at 1, unget_char at 1 in H.
    destruct (IH _ _ _ H) as (H1 & H2 & H3).
    destruct Hc2 as (_ & _ & Hsb2), E3 as (_ & _ & Hsb3).
    simpl in H2, H3. rewrite Hsb, Hsb2, Hsb3. auto. }
  destruct (c =? ch_dquote)%char.
  { destruct (read_string_value _ _ _ _ _ H) as [v ->].
    splits; [reflexivity | discriminate | discriminate]. }
  destruct (c =? "[")%char.
  { unfold bind at 1, get_string_bracket at 1 in H. rewrite Hsb.
    destruct (string_bracket a1); cbn [negb] in H.
    - destruct (read_flag_value _ _ _ _ _ H eq_refl) as (v & -> & Hv).
      splits; [exact Hv | reflexivity | discriminate].
    - injection H as <- _. splits; [reflexivity | discriminate | reflexivity]. }
  destruct (c =? "(")%char.
  { destruct (read_parens_value _ _ _ _ _ H eq_refl) as (v & -> & Hv).
    splits; [simpl; rewrite Hv; reflexivity | discriminate | discriminate]. }
  destruct (negb (char_in c BARE_DISALLOWED)); [|discriminate].
  destruct (read_bare_value _ _ _ _ _ H) as [v ->].
  splits; [reflexivity | discriminate | discriminate].
Qed.

(** X9 — The token model.  Whatever [_next_token] returns has the shape of
    its kind: EOF has no value and every other kind has one; a fixed token
    carries its own character and NEWLINE a newline; the value of PAREN_ARGS
    has no closing parenthesis, and the value of PROP_FLAG neither a closing
    bracket nor a newline.  PROP_FLAG is only returned when [string_bracket]
    is set, and BRACK_OPEN only when it is not. *)
Theorem token_shapes (f : nat) (a : Tokenizer) (tok : TokenPair)
    (a' : Tokenizer) :
  _next_token f a = Some (Ret tok, a') ->
  token_shape tok = true
  /\ (fst tok = PROP_FLAG -> string_bracket a = true)
  /\ (fst tok = BRACK_OPEN -> string_bracket a = false).
Proof. apply next_token_shape. Qed.

Lemma token_shapes_witness :
  token_shape (PROP_FLAG, Some "!a") = true
  /\ (PROP_FLAG = PROP_FLAG -> true = true)
  /\ (PROP_FLAG = BRACK_OPEN -> true = false).
Proof.
  exact (token_shapes 5 (of_string "[!a]" true) (PROP_FLAG, Some "!a")
           (set_char_index (of_string "[!a]" true) 3) eq_refl).
Defined.

(** ** Iterating over a tokenizer *)

Lemma at_eof_remaining (a : Tokenizer) : at_eof a -> remaining a = "".
Proof.
  intros [Hit Hlen]. unfold remaining. rewrite Hit. simpl.
  rewrite drop_past_end; [reflexivity|]. unfold len in Hlen. lia.
Qed.

Lemma wf_str_stream (a : Tokenizer) : wf a -> str_stream a.
Proof. intros [_ H]. exact H. Qed.

(** A returned pair is the sentinel exactly when its kind is EOF. *)
Lemma is_tok_EOF_kind (f : nat) (a : Tokenizer) (tok : TokenPair)
    (a' : Tokenizer) :
  _next_token f a = Some (Ret tok, a') ->
  is_tok_EOF tok = Token_eqb (fst tok) EOF.
Proof.
  intros H. destruct (next_token_shape f a tok a' H) as (Hs & _).
  destruct tok as [[] [v|]]; simpl in *; try reflexivity; discriminate.
Qed.

Lemma iter_no_EOF (f n : nat) : forall a toks e a',
  __iter__ f n a = Some (toks, e, a') ->
  Forall (fun tok : TokenPair => fst tok <> EOF) toks.
Proof.
  induction n as [|n IH]; intros a toks e a' H; [discriminate|].
  cbn [__iter__] in H. unfold __call__ in H.
  destruct (_next_token f a) as [[[tok|e1] a1]|] eqn:E; try discriminate.
  - rewrite (is_tok_EOF_kind f a tok a1 E) in H.
    destruct (Token_eqb (fst tok) EOF) eqn:Ek.
    + injection H as <- _ _. constructor.
    + destruct (__iter__ f n a1) as [[[toks1 e2] a2]|] eqn:E1; try discriminate.
      injection H as <- _ _. constructor.
      * apply Token_eqb_neq. exact Ek.
      * eapply IH. exact E1.
  - injection H as <- _ _. constructor.
Qed.

Lemma iter_ends_at_eof (f n : nat) : forall a toks a',
  str_stream a ->
  __iter__ f n a = Some (toks, None, a') -> at_eof a'.
Proof.
  induction n as [|n IH]; intros a toks a' Hs H; [discriminate|].
  cbn [__iter__] in H. unfold __call__ in H.
  pose proof (next_token_eof f a Hs) as Hp.
  destruct (_next_token f a) as [[[tok|e1] a1]|] eqn:E; try discriminate.
  destruct Hp as (Hs1 & Heof & _).
  rewrite (is_tok_EOF_kind f a tok a1 E) in H.
  destruct (Token_eqb (fst tok) EOF) eqn:Ek.
  - injection H as _ <-. apply Token_eqb_eq in Ek.
    destruct tok as [k v]. simpl in Ek. subst k.
    destruct (Heof v eq_refl) as [Ha _]. exact Ha.
  - destruct (__iter__ f n a1) as [[[toks1 e2] a2]|] eqn:E1; try discriminate.
    injection H as _ -> <-. eapply IH; eassumption.
Qed.

(** X10 — Iterating.  [__iter__] never yields an EOF token: the pairs it
    gives all have another kind.  On a stream of strings, an iteration that
    ended without an exception leaves an exhausted tokenizer: iterating it
    again yields nothing. *)
Theorem iteration_excludes_EOF (a : Tokenizer) (f n : nat)
    (toks : list TokenPair) (e : option PyExc) (a' : Tokenizer) :
  __iter__ f n a = Some (toks, e, a') ->
  Forall (fun tok : TokenPair => fst tok <> EOF) toks
  /\ (str_stream a -> e = None ->
      forall f' n',
        exists a'',
          __iter__ (S f') (S n') a' = Some ([], None, a'')
          /\ line_num a'' = line_num a').
Proof.
  intros H. split; [eapply iter_no_EOF; exact H|].
  intros Hs -> f' n'.
  pose proof (iter_ends_at_eof f n a toks a' Hs H) as Ha.
  cbn [__iter__]. unfold __call__. rewrite (at_eof_next_token a' f' Ha).
  simpl. eauto.
Qed.

Lemma iteration_excludes_EOF_witness :
  Forall (fun tok : TokenPair => fst tok <> EOF)
    [(STRING, Some "a"); (BRACE_OPEN, Some "{")]
  /\ (str_stream (of_string "a {" false) -> @None PyExc = None ->
      forall f' n',
        exists a'',
          __iter__ (S f') (S n') (set_char_index (of_string "a {" false) 3)
          = Some ([], None, a'')
          /\ line_num a'' = 1).
Proof.
  exact (iteration_excludes_EOF (of_string "a {" false) 5 5
           [(STRING, Some "a"); (BRACE_OPEN, Some "{")] None
           (set_char_index (of_string "a {" false) 3) eq_refl).
Defined.

(** X11 — An iteration is finite.  On a text of [k] characters, with fuel
    and a bound on the calls above [k], the iteration comes to an end; it
    yields at most [k] pairs, since every pair takes at least one character,
    and when it ends without an exception the whole text has been read. *)
Theorem iteration_ends (n : nat) :
  forall (a : Tokenizer) (f : nat),
    wf a ->
    (String.length (remaining a) < f)%nat ->
    (String.length (remaining a) < n)%nat ->
    exists toks e a',
      __iter__ f n a = Some (toks, e, a')
      /\ (List.length toks <= String.length (remaining a))%nat
      /\ (e = None -> remaining a' = "").
Proof.
  induction n as [|n IH]; intros a f Hwf Hf Hn; [lia|].
  cbn [__iter__]. unfold __call__.
  destruct (next_token_frame f a Hwf Hf) as (o & a1 & p & E & Hc & _ & Hp).
  destruct Hc as (Hwf1 & _ & Hrem & _).
  pose proof (next_token_eof f a (wf_str_stream a Hwf)) as Hpost.
  rewrite E in *. destruct o as [tok|e1].
  2:{ exists [], (Some e1), a1. splits; [reflexivity | simpl; lia | discriminate]. }
  rewrite (is_tok_EOF_kind f a tok a1 E).
  destruct Hpost as (_ & Heof & _).
  destruct (Token_eqb (fst tok) EOF) eqn:Ek.
  - exists [], None, a1. splits; [reflexivity | simpl; lia |].
    intros _. apply Token_eqb_eq in Ek. destruct tok as [k v]. simpl in Ek.
    subst k. destruct (Heof v eq_refl) as [Ha _].
    apply at_eof_remaining. exact Ha.
  - assert (Hlen : (String.length (remaining a1) < String.length (remaining a))%nat).
    { rewrite Hrem, length_append. destruct p as [|c p]; [|simpl; lia].
      specialize (Hp eq_refl). injection Hp as ->. discriminate Ek. }
    destruct (IH a1 f Hwf1) as (toks & e & a' & E' & Hcount & Hend); try lia.
    rewrite E'. exists (tok :: toks), e, a'.
    splits; [reflexivity | simpl; lia | exact Hend].
Qed.

Lemma iteration_ends_witness :
  exists toks e a',
    __iter__ 4 4 (of_string "a {" false) = Some (toks, e, a')
    /\ (List.length toks <= String.length (remaining (of_string "a {" false)))%nat
    /\ (e = None -> remaining a' = "").
Proof.
  refine (iteration_ends 4 (of_string "a {" false) 4 _ _ _).
  - unfold wf. simpl. split; [lia | reflexivity].
  - simpl. lia.
  - simpl. lia.
Defined.

(** ** Chunks that are empty or [None] *)

Lemma join_drop_empty (chunks : list string) :
  join (drop_empty chunks) = join chunks.
Proof.
  induction chunks as [|c chunks IH]; [reflexivity|].
  unfold drop_empty in *. cbn [filter]. destruct c as [|x c]; cbn [String.eqb negb].
  - rewrite IH, join_cons. reflexivity.
  - rewrite !join_cons, IH. reflexivity.
Qed.

(** X12 — Empty chunks.  The empty strings of a stream are skipped: with or
    without them, any number of calls gives the same outcomes and the same
    line number. *)
Theorem empty_chunks_skipped (chunks : list string) (fname : option string)
    (error : option PyClass) (bracket : bool) :
  match __init__ (DataIter (map PyStr chunks) None) fname error bracket,
        __init__ (DataIter (map PyStr (drop_empty chunks)) None)
          fname error bracket with
  | Ret a, Ret b =>
      forall n f : nat,
        (String.length (join chunks) < f)%nat ->
        exists os a' b',
          calls f n a = Some (os, a') /\ calls f n b = Some (os, b')
          /\ line_num a' = line_num b'
  | Raise e, Raise e' => e = e'
  | _, _ => False
  end.
Proof.
  pose proof (init_sim chunks fname error bracket) as Ha.
  pose proof (init_sim (drop_empty chunks) fname error bracket) as Hb.
  rewrite join_drop_empty in Hb.
  assert (Hlen : forall c, __init__ (DataStr (join chunks)) fname error bracket = Ret c ->
                           remaining c = join chunks).
  { unfold __init__. intros c Hc.
    destruct error as [cls|]; [destruct (cls_is_syntax_error cls)|];
      try discriminate; injection Hc as <-;
      unfold remaining; simpl; apply append_nil_r. }
  destruct (__init__ (DataIter (map PyStr chunks) None) fname error bracket) as [a|e],
           (__init__ (DataIter (map PyStr (drop_empty chunks)) None)
              fname error bracket) as [b|e'],
           (__init__ (DataStr (join chunks)) fname error bracket) as [c|e''];
    try contradiction; try congruence.
  intros n f Hf. specialize (Hlen c eq_refl).
  pose proof Ha as (Hwa & _ & Hra & _). pose proof Hb as (Hwb & _ & Hrb & _).
  destruct (calls_total f n a Hwa) as (os & a' & Ea & _); [rewrite Hra, Hlen; exact Hf|].
  destruct (calls_total f n b Hwb) as (os' & b' & Eb & _); [rewrite Hrb, Hlen; exact Hf|].
  pose proof (calls_sim f n a c Ha) as Hca. rewrite Ea in Hca.
  pose proof (calls_sim f n b c Hb) as Hcb. rewrite Eb in Hcb.
  destruct (calls f n c) as [[osc c']|]; [|contradiction].
  destruct Hca as [-> Hsa], Hcb as [-> Hsb].
  exists osc, a', b'. splits; auto.
  destruct Hsa as (_ & _ & _ & Hla & _), Hsb as (_ & _ & _ & Hlb & _). congruence.
Qed.

(** X13 — A [None] in the stream.  When the current chunk is used up and the
    iterator yields [None], [_next_token] returns EOF although chunks
    remain; the [None] is gone from the iterator, and the next read delivers
    the first character of the chunk after it.  So EOF is final only on a
    stream of strings. *)
Theorem none_chunk_is_early_eof (a : Tokenizer) (f : nat) (it : list Chunk) :
  len (cur_chunk a) <= char_index a + 1 ->
  chunk_iter a = PyNone :: it ->
  exists a',
    _next_token (S f) a = Some (Ret _tok_EOF, a')
    /\ chunk_iter a' = it /\ line_num a' = line_num a
    /\ forall c r it',
         it = PyStr (String c r) :: it' ->
         fst (_next_char a') = Ret (Some c).
Proof.
  intros Hlen Hit. cbn [_next_token]. unfold bind, next_char, _next_char.
  destruct a as [cur its idx cls file line br]. simpl in *. subst its.
  destruct (Z.ltb_spec (idx + 1) (len cur)) as [?|_]; [lia|].
  eexists. split; [reflexivity|]. simpl. splits; auto.
  intros c r it' ->. simpl.
  destruct (Z.ltb_spec (idx + 1 + 1) (len cur)) as [?|_]; [lia|]. reflexivity.
Qed.

Lemma none_chunk_is_early_eof_witness :
  exists a',
    _next_token 1
      {| cur_chunk := ""; chunk_iter := [PyNone; PyStr "b"]; char_index := -1;
         error_type := TokenSyntaxError; filename := ""; line_num := 1;
         string_bracket := false |}
    = Some (Ret _tok_EOF, a')
    /\ chunk_iter a' = [PyStr "b"] /\ line_num a' = 1
    /\ forall c r it',
         [PyStr "b"] = PyStr (String c r) :: it' ->
         fst (_next_char a') = Ret (Some c).
Proof.
  refine (none_chunk_is_early_eof
            {| cur_chunk := ""; chunk_iter := [PyNone; PyStr "b"];
               char_index := -1; error_type := TokenSyntaxError;
               filename := ""; line_num := 1; string_bracket := false |}
            0%nat [PyStr "b"] _ eq_refl).
  vm_compute. discriminate.
Defined.

(** ** A constructed tokenizer *)

Lemma calls_error (a0 : Tokenizer) (f n : nat) : forall a os a',
  cursor_from a0 (-1) a ->
  calls f n a = Some (os, a') ->
  cursor_from a0 (-1) a'
  /\ forall e, In (Raise e) os ->
       (exists message line,
           e = ErrorInstance (error_type a0) message (filename a0) line)
       \/ chunk_error e \/ e = sentinel_error.
Proof.
  induction n as [|n IH]; intros a os a' Hc H.
  - simpl in H. injection H as <- <-. split; [exact Hc | intros e []].
  - cbn [calls] in H. pose proof (next_token_error a0 f a Hc) as Hp.
    destruct (_next_token f a) as [[o a1]|]; [|discriminate].
    destruct (calls f n a1) as [[os1 a2]|] eqn:E1; [|discriminate].
    injection H as <- <-. destruct Hp as [Hc1 He1].
    destruct (IH a1 os1 a2 Hc1 E1) as [Hc2 He2].
    split; [exact Hc2|]. intros e [->|Hin]; [|apply He2; exact Hin].
    destruct (He1 e eq_refl) as [[message ->]|Hce]; [left; eauto | right; exact Hce].
Qed.

(** X14 — A constructed tokenizer.  The error class of a tokenizer that
    [__init__] has built is the class given, or [TokenSyntaxError], and is a
    subclass of it; the line counter starts at 1.  Over any number of calls
    the file name, the error class and the mode stay what they were and the
    cursor stays at or above -1; every exception of a call is an instance of
    that class with that file name, or the built-in [TypeError] for a chunk
    that is not a string, or the built-in [ValueError] for the sentinel. *)
Theorem constructed_tokenizer (data : Data) (fname : option string)
    (error : option PyClass) (bracket : bool) (a : Tokenizer) (f n : nat)
    (os : list (Outcome TokenPair)) (a' : Tokenizer) :
  __init__ data fname error bracket = Ret a ->
  calls f n a = Some (os, a') ->
  (error_type a = match error with
                  | Some cls => cls
                  | None => TokenSyntaxError
                  end
   /\ cls_is_syntax_error (error_type a) = true /\ line_num a = 1)
  /\ (filename a' = filename a /\ error_type a' = error_type a
      /\ string_bracket a' = bracket /\ -1 <= char_index a')
  /\ forall e, In (Raise e) os ->
       (exists message line,
           e = ErrorInstance (error_type a) message (filename a) line)
       \/ (exists message, e = TypeError message)
       \/ e = ValueError "chr() arg not in range(0x110000)".
Proof.
  intros Hinit Hcalls.
  assert (Ha : (error_type a = match error with
                               | Some cls => cls
                               | None => TokenSyntaxError
                               end
                /\ cls_is_syntax_error (error_type a) = true /\ line_num a = 1)
               /\ string_bracket a = bracket /\ char_index a = -1).
  { unfold __init__ in Hinit.
    destruct data as [s|chunks name];
      (destruct error as [cls|];
       [destruct (cls_is_syntax_error cls) eqn:Ecls; [|discriminate]|]);
      injection Hinit as <-; simpl; auto. }
  destruct Ha as (Hcls & Hb & Hidx).
  destruct (calls_error a f n a os a') as [[Hidx' (Hf & He & Hsb)] Herr];
    [split; [lia | apply same_config_refl] | exact Hcalls |].
  destruct Hcls as (Hcls1 & Hcls2 & Hline).
  splits; auto; try congruence.
Qed.

Lemma constructed_tokenizer_witness :
  (error_type (of_string "a <" true) = TokenSyntaxError
   /\ cls_is_syntax_error (error_type (of_string "a <" true)) = true
   /\ line_num (of_string "a <" true) = 1)
  /\ (filename (set_char_index (of_string "a <" true) 2) = ""
      /\ error_type (set_char_index (of_string "a <" true) 2) = TokenSyntaxError
      /\ string_bracket (set_char_index (of_string "a <" true) 2) = true
      /\ -1 <= char_index (set_char_index (of_string "a <" true) 2))
  /\ forall e,
       In (Raise e)
         [Ret (STRING, Some "a");
          Raise (ErrorInstance TokenSyntaxError
                   ("Unexpected character " ++ String ch_dquote ("<"
                    ++ String ch_dquote "!")) "" 1)] ->
       (exists message line,
           e = ErrorInstance TokenSyntaxError message "" line)
       \/ (exists message, e = TypeError message)
       \/ e = ValueError "chr() arg not in range(0x110000)".
Proof.
  exact (constructed_tokenizer (DataStr "a <") None None true
           (of_string "a <" true) 4 2 _
           (set_char_index (of_string "a <" true) 2) eq_refl eq_refl).
Defined.

(** ** The line number after a run *)

(** X15 — The line number after a run.  After any number of calls that all
    returned a token, on a text where no backslash is directly followed by a
    newline, the line counter has been incremented once for each newline of
    the text read so far; once the whole text is read, once for each newline
    of the text. *)
Theorem lines_of_a_run (n : nat) :
  forall (a : Tokenizer) (f : nat) (os : list (Outcome TokenPair))
         (a' : Tokenizer),
    wf a -> (String.length (remaining a) < f)%nat ->
    calls f n a = Some (os, a') ->
    Forall (fun o => returns o) os ->
    no_bslash_nl (remaining a) = true ->
    (exists p,
        remaining a = p ++ remaining a'
        /\ line_num a' = add_lines (line_num a) (count_nl p))
    /\ (remaining a' = "" ->
        line_num a' = add_lines (line_num a) (count_nl (remaining a))).
Proof.
  assert (Hmain : forall n a f os a',
    wf a -> (String.length (remaining a) < f)%nat ->
    calls f n a = Some (os, a') ->
    Forall (fun o => returns o) os ->
    no_bslash_nl (remaining a) = true ->
    exists p,
      remaining a = p ++ remaining a'
      /\ line_num a' = add_lines (line_num a) (count_nl p)).
  { clear n. induction n as [|n IH]; intros a f os a' Hwf Hf H Hret Hn.
    - simpl in H. injection H as <- <-. exists "". simpl. auto.
    - cbn [calls] in H.
      destruct (next_token_frame f a Hwf Hf) as (o & a1 & p & E & Hc & Hex & _).
      rewrite E in H.
      destruct (calls f n a1) as [[os1 a2]|] eqn:E1; [|discriminate].
      injection H as <- <-. inversion Hret as [|o' os' Ho Hos]; subst.
      destruct Hc as (Hwf1 & _ & Hrem & _).
      rewrite Hrem in Hn. apply no_bslash_nl_append in Hn. destruct Hn as [Hp Hn1].
      specialize (Hex Ho). unfold exact_lines in Hex.
      rewrite (uncounted_none p Hp), Nat.sub_0_r in Hex.
      destruct (IH a1 f os1 a2 Hwf1) as (p1 & Hrem1 & Hl1); auto.
      { rewrite Hrem, length_append in Hf. lia. }
      exists (p ++ p1). rewrite count_nl_append, append_assoc, <- Hrem1.
      split; [exact Hrem|]. rewrite add_lines_add, <- Hex. exact Hl1. }
  intros a f os a' Hwf Hf H Hret Hn.
  destruct (Hmain n a f os a' Hwf Hf H Hret Hn) as (p & Hrem & Hl).
  split; [exists p; auto|].
  intros Hend. rewrite Hend, append_nil_r in Hrem. rewrite Hrem. exact Hl.
Qed.

Lemma lines_of_a_run_witness :
  (exists p,
      remaining (of_string ("a" ++ String ch_nl "b") false)
      = p ++ remaining (set_char_index
                          (set_line_num (of_string ("a" ++ String ch_nl "b") false) 2) 3)
      /\ 2 = add_lines 1 (count_nl p))
  /\ (remaining (set_char_index
                   (set_line_num (of_string ("a" ++ String ch_nl "b") false) 2) 3)
      = "" ->
      2 = add_lines 1
            (count_nl (remaining (of_string ("a" ++ String ch_nl "b") false)))).
Proof.
  refine (lines_of_a_run 3 (of_string ("a" ++ String ch_nl "b") false) 4 _
            (set_char_index
               (set_line_num (of_string ("a" ++ String ch_nl "b") false) 2) 3)
            _ _ eq_refl _ eq_refl).
  - unfold wf. simpl. split; [lia | reflexivity].
  - simpl. lia.
  - repeat constructor.
Defined.

(** ** [expect] at the end of the input *)


